(** * Peru minimum-temperature raster analysis: zonal statistics and
      percentile targeting

    A shallow embedding of [app/streamlit_app.py]:

    - [normalize_str]  (lines 14-19), the district-name normalizer;
    - [compute_stats]  (lines 21-42), the per-band zonal statistics, with the
      part of [rasterstats.zonal_stats] it drives;
    - the per-band loop and the concatenation (lines 84-95);
    - the global and the Amazonian percentile-10 cohorts (lines 147-206).

    Conventions.  A number is a rational ([Q]).  Where the result of an
    operation depends on the number type of the raster (the rounding of a
    mean, of a variance and of a difference, the wrap-around of an integer
    type) or on the rounding of a float average, the operation is a
    parameter: a field of the number type of the dataset, or an argument.  A
    float NaN, and the [None] that rasterstats returns and pandas stores as
    a missing value, are both [NaN].  Library calls (numpy, pandas,
    rasterstats, rasterio, unicodedata) are modelled by the behaviour the
    program relies on; the Unicode character tables and the string
    upper-casing are parameters. *)

From Stdlib Require Import String.
From Stdlib Require Import ZArith QArith Qround Qminmax Lqa Lia.
From Stdlib Require Import List Bool Permutation Sorted Mergesort Orders.
Import ListNotations.

Set Implicit Arguments.

(* ================================================================== *)
(** ** Exceptions *)

(** The exceptions that the library calls of the program raise.  The source
    defines no exception class of its own. *)
Inductive error : Type :=
| IndexError      (* rasterio: band index out of range *)
| ValueError      (* pandas: percentiles should all be in the interval [0, 1];
                     pandas: no objects to concatenate;
                     rasterstats: object is not a recognized source of features *)
| AttributeError. (* pandas: can only use .str accessor with string values *)

Inductive result (A : Type) : Type :=
| Ok (a : A)
| Raise (e : error).

Arguments Ok {A} a.
Arguments Raise {A} e.

Definition bind {A B : Type} (m : result A) (k : A -> result B) : result B :=
  match m with
  | Ok a => k a
  | Raise e => Raise e
  end.

Notation "x <- m ;; k" := (bind m (fun x => k))
  (at level 61, m at next level, right associativity).

Fixpoint mapM {A B : Type} (f : A -> result B) (l : list A) : result (list B) :=
  match l with
  | [] => Ok []
  | a :: l' => b <- f a ;; bs <- mapM f l' ;; Ok (b :: bs)
  end.

Definition raises {A : Type} (m : result A) : bool :=
  match m with Ok _ => false | Raise _ => true end.

(* ================================================================== *)
(** ** Linear-interpolation percentile (numpy's default method) *)

Lemma Qle_bool_total (a b : Q) : Qle_bool a b = true \/ Qle_bool b a = true.
Proof.
  rewrite !Qle_bool_iff.
  destruct (Qlt_le_dec a b) as [H | H]; [left; apply Qlt_le_weak, H | right; exact H].
Qed.

Module QOrder <: TotalLeBool.
Definition t : Type := Q.
Definition leb : Q -> Q -> bool := Qle_bool.
Definition leb_total : forall a b, leb a b = true \/ leb b a = true := Qle_bool_total.
End QOrder.

Module QSort := Sort QOrder.

Module Numpy.

(** [a + (b - a) * t], the interpolation step of [np.percentile]. *)
Definition lerp (a b t : Q) : Q := a + (b - a) * t.

(** [np.percentile(xs, 100 q)] with the default ["linear"] method, for a
    non-empty [xs]: the virtual index is [q * (n - 1)], its floor selects the
    lower order statistic, the next index (clipped to [n - 1]) the upper one. *)
Definition percentile (xs : list Q) (q : Q) : Q :=
  let s := QSort.sort xs in
  let n := length s in
  let h := q * (inject_Z (Z.of_nat n) - 1) in
  let i := Z.to_nat (Qfloor h) in
  let g := h - inject_Z (Qfloor h) in
  lerp (nth i s 0) (nth (Nat.min (S i) (n - 1)) s 0) g.

(** [np.nanpercentile(xs, 100 q)]: NaN entries are dropped; an all-NaN or
    empty input gives NaN. *)
Definition dropna (xs : list (option Q)) : list Q :=
  flat_map (fun x => match x with Some v => [v] | None => [] end) xs.

Definition nanpercentile (xs : list (option Q)) (q : Q) : option Q :=
  match dropna xs with
  | [] => None
  | v :: vs => Some (percentile (v :: vs) q)
  end.

(** The exact sum and mean of a list of numbers.  These are the values a
    float sum and mean round; the results that the program gets are the
    fields [mean_of] and [var_of] of the number type of a raster and the
    argument [fmean] of the cohort averages. *)
Definition sum (xs : list Q) : Q := fold_right Qplus 0 xs.

Definition mean (xs : list Q) : Q := sum xs / inject_Z (Z.of_nat (length xs)).

Definition minimum (x : Q) (xs : list Q) : Q := fold_right Qmin x xs.
Definition maximum (x : Q) (xs : list Q) : Q := fold_right Qmax x xs.

(** The exact population variance; [std] is the square root of its float
    value. *)
Definition var (xs : list Q) : Q :=
  let m := mean xs in
  mean (map (fun x => (x - m) * (x - m)) xs).

End Numpy.

(* ================================================================== *)
(** ** The zonal statistics engine: [compute_stats] and the band loop *)

Module Zonal.

(** A value of a statistics column: a number, NaN (also rasterstats' [None]),
    or numpy's [masked] constant. *)
Inductive value : Type :=
| Num (q : Q)
| NaN
| Masked.

(** The [std] column.  A square root has no rational value in general, so
    the column keeps the radicand: [Sqrt v] stands for [sqrt v], where [v]
    is the population variance as numpy computes it. *)
Inductive std_value : Type :=
| StdNaN
| Sqrt (radicand : Q).

(** A raster sample is a number of the raster's type; [None] is a NaN
    sample. *)
Definition sample : Type := option Q.

(** The number type of the samples of a raster, given by what numpy's
    arithmetic on that type returns: the difference of two samples (rounded
    on a floating type, wrapped around on an integer type), and the mean and
    the variance of the valid cells as [masked.mean()] and [masked.std()]
    compute them (their rounding depends on the type and on the order of
    summation).  All that is assumed of a type is that the difference of two
    equal samples is zero. *)
Record dtype : Type := {
  subtract : Q -> Q -> Q;
  subtract_eq : forall x y, x == y -> subtract x y == 0;
  mean_of : list Q -> Q;
  var_of : list Q -> Q
}.

(** A type on samples for which no operation rounds or overflows: every
    operation returns its exact result.  float64 behaves so on the sample
    rasters below, which hold small integers with exact means. *)
Lemma Qminus_eq (x y : Q) : x == y -> x - y == 0.
Proof. intro H. rewrite H. ring. Qed.

Definition exact_arithmetic : dtype :=
  {| subtract := Qminus; subtract_eq := Qminus_eq;
     mean_of := Numpy.mean; var_of := Numpy.var |}.

(** An integer type of [bits] bits: a result outside the range of the type
    wraps around, modulo [2 ^ bits]. *)
Definition wrap_around (signed : bool) (bits : positive) (q : Q) : Q :=
  let m := inject_Z (2 ^ Z.pos bits) in
  let h := if signed then m / 2 else 0 in
  q - m * inject_Z (Qfloor ((q + h) / m)).

Lemma wrap_around_eq (signed : bool) (bits : positive) (x y : Q) :
  x == y -> wrap_around signed bits (x - y) == 0.
Proof.
  intro H. unfold wrap_around.
  assert (Hm : 0 < inject_Z (2 ^ Z.pos bits)).
  { change 0 with (inject_Z 0). rewrite <- Zlt_Qlt. apply Z.pow_pos_nonneg; lia. }
  set (m := inject_Z (2 ^ Z.pos bits)) in *.
  assert (Hf : Qfloor ((x - y + (if signed then m / 2 else 0)) / m) = 0%Z).
  { destruct signed.
    - assert (E : (x - y + m / 2) / m == 1 # 2) by (rewrite H; field; lra).
      rewrite E. reflexivity.
    - assert (E : (x - y + 0) / m == 0) by (rewrite H; field; lra).
      rewrite E. reflexivity. }
  rewrite Hf, H. change (inject_Z 0) with 0. ring.
Qed.

Definition integer_type (signed : bool) (bits : positive)
    (mean var : list Q -> Q) : dtype :=
  {| subtract := fun x y => wrap_around signed bits (x - y);
     subtract_eq := wrap_around_eq signed bits;
     mean_of := mean; var_of := var |}.

(** One band as read by [src.read(band)]: rows of samples. *)
Definition ndarray : Type := list (list sample).

(** The rasterio dataset [src]: its bands, its declared nodata value
    ([None] when the file declares none) and the number type of its
    samples. *)
Record DatasetReader : Type := {
  bands : list ndarray;
  nodata : option sample;
  band_dtype : dtype
}.

Definition count_bands (src : DatasetReader) : nat := length (bands src).

(** [src.read(band)]: bands are numbered from 1; any other index raises. *)
Definition read (src : DatasetReader) (band : Z) : result ndarray :=
  if (band <=? 0)%Z then Raise IndexError
  else match nth_error (bands src) (Z.to_nat (band - 1)) with
       | Some a => Ok a
       | None => Raise IndexError
       end.

(** A geometry as rasterstats sees it once the affine transform is applied:
    the pixel window of its bounding box (offset of the upper-left cell, the
    shape being that of [rv_array]) and [rv_array], the rasterized geometry
    (true where the cell belongs to the polygon).  The window may lie partly
    or fully outside the raster. *)
Record footprint : Type := {
  row_off : Z;
  col_off : Z;
  rv_array : list (list bool)
}.

(** A row of the boundary layer [gdf]. *)
Record feature : Type := {
  UBIGEO : Z;
  DEPARTAMEN : string;
  PROVINCIA : string;
  DISTRITO : string;
  geometry : footprint
}.

(** rasterstats substitutes -999 when no nodata value is given. *)
Definition effective_nodata (nd : option sample) : sample :=
  match nd with
  | Some v => v
  | None => Some (-999 # 1)
  end.

(** Boundless read of one cell: a cell outside the raster holds nodata. *)
Definition read_cell (a : ndarray) (fill : sample) (r c : Z) : sample :=
  if ((r <? 0) || (c <? 0))%Z then fill
  else match nth_error a (Z.to_nat r) with
       | Some row =>
           match nth_error row (Z.to_nat c) with
           | Some v => v
           | None => fill
           end
       | None => fill
       end.

Fixpoint imap {A B : Type} (f : Z -> A -> B) (i : Z) (l : list A) : list B :=
  match l with
  | [] => []
  | a :: l' => f i a :: imap f (i + 1)%Z l'
  end.

Definition isnodata (v fill : sample) : bool :=
  match v, fill with
  | Some a, Some b => Qeq_bool a b
  | _, _ => false
  end.

Definition isnan (v : sample) : bool :=
  match v with
  | None => true
  | Some _ => false
  end.

(** A 2-D [numpy.ma.MaskedArray]: it has the number type of the array it
    was built from; every cell keeps its data and carries a mask bit (true =
    masked out). *)
Record MaskedArray : Type := {
  ma_dtype : dtype;
  ma_cells : list (list (sample * bool))
}.

(** The array [masked] that [zonal_stats] builds for one feature: the window
    read from the band, masked where the sample is nodata, is NaN, or lies
    outside the rasterized geometry. *)
Definition masked_window (dt : dtype) (a : ndarray) (fill : sample) (g : footprint)
    : MaskedArray :=
  {| ma_dtype := dt;
     ma_cells :=
       imap (fun i row =>
               imap (fun j inside =>
                       let v := read_cell a fill (row_off g + i) (col_off g + j) in
                       (v, isnodata v fill || isnan v || negb inside))
                    0%Z row)
            0%Z (rv_array g) |}.

(** [masked.compressed()]: the unmasked data, flattened. *)
Definition compressed (x : MaskedArray) : list Q :=
  flat_map (flat_map (fun c : sample * bool =>
                        if snd c then []
                        else match fst c with Some q => [q] | None => [] end))
           (ma_cells x).

(** [np.array(x, copy=True)]: the data of [x] as a plain array; the mask is
    not carried over.  The plain array keeps the number type, which the
    model passes on beside it. *)
Definition np_array (x : MaskedArray) : ndarray := map (map fst) (ma_cells x).

(** [len(x)] of a 2-D array: its number of rows. *)
Definition len (x : MaskedArray) : nat := length (ma_cells x).

(** The interpolation step of [np.percentile] on samples of the type [dt]:
    the difference [b - a] is taken in that type, and the result is built
    from [a] below the middle and from [b] from the middle on. *)
Definition lerp (dt : dtype) (a b t : Q) : Q :=
  let d := subtract dt b a in
  if Qle_bool (1 # 2) t then b - d * (1 - t) else a + d * t.

(** [np.percentile(xs, 100 q)] with the default ["linear"] method on a
    non-empty array of the type [dt]. *)
Definition percentile (dt : dtype) (xs : list Q) (q : Q) : Q :=
  let s := QSort.sort xs in
  let n := length s in
  let h := q * (inject_Z (Z.of_nat n) - 1) in
  let i := Z.to_nat (Qfloor h) in
  let g := h - inject_Z (Qfloor h) in
  lerp dt (nth i s 0) (nth (Nat.min (S i) (n - 1)) s 0) g.

Definition nanpercentile (dt : dtype) (xs : list (option Q)) (q : Q) : option Q :=
  match Numpy.dropna xs with
  | [] => None
  | v :: vs => Some (percentile dt (v :: vs) q)
  end.

Definition of_option (o : option Q) : value :=
  match o with
  | Some q => Num q
  | None => NaN
  end.

(** [np.nanpercentile] of a plain array of the type [dt] works on the
    flattened data. *)
Definition np_nanpercentile (dt : dtype) (a : ndarray) (q : Q) : value :=
  of_option (nanpercentile dt (concat a) (q / 100)).

(** [np.nanmax] / [np.nanmin] of a masked array reduce over the unmasked
    cells (none of which is NaN) and give [masked] when there is none. *)
Definition np_nanmax (x : MaskedArray) : value :=
  match compressed x with
  | [] => Masked
  | v :: vs => Num (Numpy.maximum v vs)
  end.

Definition np_nanmin (x : MaskedArray) : value :=
  match compressed x with
  | [] => Masked
  | v :: vs => Num (Numpy.minimum v vs)
  end.

(** [a - b] on two scalars of the type [dt]. *)
Definition sub (dt : dtype) (a b : value) : value :=
  match a, b with
  | Num x, Num y => Num (subtract dt x y)
  | Masked, _ | _, Masked => Masked
  | _, _ => NaN
  end.

(** The three [add_stats] lambdas of [compute_stats] (lines 32-34). *)
Definition lambda_p10 (x : MaskedArray) : value :=
  if (0 <? len x)%nat then np_nanpercentile (ma_dtype x) (np_array x) 10 else NaN.

Definition lambda_p90 (x : MaskedArray) : value :=
  if (0 <? len x)%nat then np_nanpercentile (ma_dtype x) (np_array x) 90 else NaN.

Definition lambda_range (x : MaskedArray) : value :=
  if (0 <? len x)%nat then sub (ma_dtype x) (np_nanmax x) (np_nanmin x) else NaN.

(** A row of the table returned by [compute_stats]; the columns carry the
    [TMIN_] prefix that line 95 adds. *)
Record stats_row : Type := {
  TMIN_count : nat;
  TMIN_mean : value;
  TMIN_min : value;
  TMIN_max : value;
  TMIN_std : std_value;
  TMIN_p10 : value;
  TMIN_p90 : value;
  TMIN_range : value;
  TMIN_BAND : Z;
  TMIN_YEAR : Z
}.

(** [zonal_stats] for one feature, with
    [stats=["count","mean","min","max","std"]] and the three [add_stats]:
    the built-in statistics reduce the unmasked cells and are [None] (count
    0) when there is none; every [add_stats] function receives the masked
    window itself. *)
Definition feature_stats (x : MaskedArray) (band : Z) : stats_row :=
  match compressed x with
  | [] =>
      {| TMIN_count := 0; TMIN_mean := NaN; TMIN_min := NaN; TMIN_max := NaN;
         TMIN_std := StdNaN;
         TMIN_p10 := lambda_p10 x; TMIN_p90 := lambda_p90 x;
         TMIN_range := lambda_range x;
         TMIN_BAND := band; TMIN_YEAR := 2019 + band |}
  | v :: vs =>
      {| TMIN_count := length (v :: vs);
         TMIN_mean := Num (mean_of (ma_dtype x) (v :: vs));
         TMIN_min := Num (Numpy.minimum v vs);
         TMIN_max := Num (Numpy.maximum v vs);
         TMIN_std := Sqrt (var_of (ma_dtype x) (v :: vs));
         TMIN_p10 := lambda_p10 x; TMIN_p90 := lambda_p90 x;
         TMIN_range := lambda_range x;
         TMIN_BAND := band; TMIN_YEAR := 2019 + band |}
  end.

(** [zonal_stats] on the whole layer: one record per feature, in the order
    of the layer.  A layer without feature is refused with ValueError. *)
Definition zonal_stats (gdf : list feature) (dt : dtype) (a : ndarray)
    (nd : option sample) (band : Z) : result (list stats_row) :=
  match gdf with
  | [] => Raise ValueError
  | _ :: _ =>
      Ok (map (fun f => feature_stats
                          (masked_window dt a (effective_nodata nd) (geometry f)) band)
              gdf)
  end.

(** [compute_stats(gdf, src, band)] (lines 21-42): the band is read first,
    then handed to [zonal_stats]. *)
Definition compute_stats (gdf : list feature) (src : DatasetReader) (band : Z)
    : result (list stats_row) :=
  array <- read src band ;;
  zonal_stats gdf (band_dtype src) array (nodata src) band.

(** [pd.concat] of a list of tables, row-wise; an empty list raises. *)
Definition pd_concat {A : Type} (tables : list (list A)) : result (list A) :=
  match tables with
  | [] => Raise ValueError
  | _ => Ok (concat tables)
  end.

(** [range(1, src.count + 1)]. *)
Definition band_range (src : DatasetReader) : list Z :=
  map Z.of_nat (seq 1 (count_bands src)).

(** Lines 84-95: one table per band, concatenated; the boundary layer
    repeated once per band; the two put side by side.  Both operands carry
    the index 0..n-1, so the side-by-side [pd.concat(axis=1)] pairs the rows
    by position. *)
Definition result_table (gdf : list feature) (src : DatasetReader)
    : result (list (feature * stats_row)) :=
  all_stats <- mapM (fun b => compute_stats gdf src b) (band_range src) ;;
  stats_df <- pd_concat all_stats ;;
  gdf_repeated <- pd_concat (repeat gdf (count_bands src)) ;;
  Ok (combine gdf_repeated stats_df).

(** *** Predicates used to state the properties of a record *)

(** The masked window of feature [f] on band [band] of [src]. *)
Definition feature_window (src : DatasetReader) (f : feature) (band : Z) : MaskedArray :=
  masked_window (band_dtype src) (nth (Z.to_nat (band - 1)) (bands src) [])
                (effective_nodata (nodata src)) (geometry f).

(** No cell of the window is masked. *)
Definition all_unmasked (x : MaskedArray) : bool :=
  forallb (forallb (fun c : sample * bool => negb (snd c))) (ma_cells x).

Definition is_nan (v : value) : Prop := v = NaN.

(** Every reduced statistic of the record is not-a-number. *)
Definition all_statistics_nan (r : stats_row) : Prop :=
  is_nan (TMIN_mean r) /\ is_nan (TMIN_min r) /\ is_nan (TMIN_max r) /\
  TMIN_std r = StdNaN /\
  is_nan (TMIN_p10 r) /\ is_nan (TMIN_p90 r) /\ is_nan (TMIN_range r).

(** [a <= b] on two statistics, which holds only between numbers. *)
Definition value_le (a b : value) : Prop :=
  match a, b with
  | Num x, Num y => x <= y
  | _, _ => False
  end.



(** The samples that the percentiles of the window [x] are taken over. *)
Definition window_data (x : MaskedArray) : list Q :=
  Numpy.dropna (concat (np_array x)).



(** The key (district identifier, band) of a row of the result table. *)
Definition row_id (r : feature * stats_row) : Z * Z :=
  (UBIGEO (fst r), TMIN_BAND (snd r)).

End Zonal.

(* ================================================================== *)
(** ** The percentile targeting: lines 147-206 *)

(** The group key of [groupby(["UBIGEO","DEPARTAMEN","PROVINCIA","DISTRITO"])]. *)
Definition district_key : Type := (Z * string * string * string)%type.

Definition key_compare (a b : district_key) : comparison :=
  let '(u1, d1, p1, n1) := a in
  let '(u2, d2, p2, n2) := b in
  match Z.compare u1 u2 with
  | Eq => match String.compare d1 d2 with
          | Eq => match String.compare p1 p2 with
                  | Eq => String.compare n1 n2
                  | c => c
                  end
          | c => c
          end
  | c => c
  end.

(** The order of the groups in the output of [groupby]: by key. *)
Definition key_leb (a b : district_key * option Q) : bool :=
  match key_compare (fst a) (fst b) with
  | Gt => false
  | _ => true
  end.

Lemma key_leb_total (a b : district_key * option Q) :
  key_leb a b = true \/ key_leb b a = true.
Proof.
  destruct a as [[[[u1 d1] p1] n1] v1], b as [[[[u2 d2] p2] n2] v2].
  unfold key_leb, key_compare, fst.
  rewrite (Z.compare_antisym u1 u2), (String.compare_antisym d2 d1),
    (String.compare_antisym p2 p1), (String.compare_antisym n2 n1).
  destruct (Z.compare u1 u2); simpl; auto;
    destruct (String.compare d1 d2); simpl; auto;
    destruct (String.compare p1 p2); simpl; auto;
    destruct (String.compare n1 n2); simpl; auto.
Qed.

Module KeyOrder <: TotalLeBool.
Definition t : Type := (district_key * option Q)%type.
Definition leb : t -> t -> bool := key_leb.
Definition leb_total : forall a b, leb a b = true \/ leb b a = true := key_leb_total.
End KeyOrder.

Module KeySort := Sort KeyOrder.

Module Targeting.

(** A row of [t_min_stats], the table re-read from [Data/tmin_stats.csv],
    with the columns the cohort code uses.  An empty CSV field is read as a
    missing value ([None]). *)
Record row : Type := {
  UBIGEO : option Z;
  DEPARTAMEN : option string;
  PROVINCIA : option string;
  DISTRITO : option string;
  TMIN_mean : option Q
}.

(** [Series.quantile(q)]: [q] is validated first, then the quantile of the
    non-missing values is taken with linear interpolation; no value, NaN. *)
Definition quantile (col : list (option Q)) (q : Q) : result (option Q) :=
  if Qle_bool 0 q && Qle_bool q 1 then Ok (Numpy.nanpercentile col q)
  else Raise ValueError.

(** [x <= threshold] on floats: false as soon as one side is NaN. *)
Definition le_threshold (x thr : option Q) : bool :=
  match x, thr with
  | Some a, Some b => Qle_bool a b
  | _, _ => false
  end.

(** [t[t["TMIN_mean"] <= thr]]. *)
Definition select (t : list row) (thr : option Q) : list row :=
  filter (fun r => le_threshold (TMIN_mean r) thr) t.

(** The key of a row; [groupby] drops a row with a missing key column. *)
Definition row_key (r : row) : option district_key :=
  match UBIGEO r, DEPARTAMEN r, PROVINCIA r, DISTRITO r with
  | Some u, Some d, Some p, Some n => Some (u, d, p, n)
  | _, _, _, _ => None
  end.

Definition key_eqb (a b : district_key) : bool :=
  let '(u1, d1, p1, n1) := a in
  let '(u2, d2, p2, n2) := b in
  (u1 =? u2)%Z && String.eqb d1 d2 && String.eqb p1 p2 && String.eqb n1 n2.

(** The running minimum of [.min()], which skips missing values. *)
Definition nanmin (a b : option Q) : option Q :=
  match a, b with
  | Some x, Some y => Some (Qmin x y)
  | Some x, None => Some x
  | None, o => o
  end.

Fixpoint upsert (k : district_key) (v : option Q)
    (acc : list (district_key * option Q)) : list (district_key * option Q) :=
  match acc with
  | [] => [(k, v)]
  | (k', v') :: rest =>
      if key_eqb k k' then (k', nanmin v' v) :: rest
      else (k', v') :: upsert k v rest
  end.

(** One step of the grouping: a row joins the group of its key. *)
Definition group_step (acc : list (district_key * option Q)) (r : row)
    : list (district_key * option Q) :=
  match row_key r with
  | Some k => upsert k (TMIN_mean r) acc
  | None => acc
  end.

Definition groups (rows : list row) : list (district_key * option Q) :=
  fold_left group_step rows [].

(** [groupby([...], as_index=False)["TMIN_mean"].min()]: one row per key,
    rows ordered by key. *)
Definition groupby_min (rows : list row) : list (district_key * option Q) :=
  KeySort.sort (groups rows).

Definition department (e : district_key * option Q) : string :=
  let '(_, d, _, _) := fst e in d.

(** [Series.unique()]: the distinct values, in order of first appearance. *)
Fixpoint unique (l : list string) : list string :=
  match l with
  | [] => []
  | x :: l' => x :: filter (fun y => negb (String.eqb x y)) (unique l')
  end.

(** The cohort steps of lines 150-160 with the percentile left open: the
    threshold, the selected rows, the rows grouped by district. *)
Definition threshold (q : Q) (t : list row) : result (option Q) :=
  quantile (map TMIN_mean t) q.

Definition cohort_rows (q : Q) (t : list row) : result (list row) :=
  thr <- threshold q t ;;
  Ok (select t thr).

Definition cohort (q : Q) (t : list row) : result (list (district_key * option Q)) :=
  rows <- cohort_rows q t ;;
  Ok (groupby_min rows).

(** Lines 150-168, the global cohort. *)
Definition global_p10 (t_min_stats : list row) : result (option Q) :=
  threshold (1 # 10) t_min_stats.

Definition target (t_min_stats : list row) : result (list row) :=
  cohort_rows (1 # 10) t_min_stats.

Definition target_unique (t_min_stats : list row)
    : result (list (district_key * option Q)) :=
  cohort (1 # 10) t_min_stats.

Definition departamentos (t_min_stats : list row) : result (list string) :=
  tu <- target_unique t_min_stats ;;
  Ok (unique (map department tu)).

(** Lines 185-206, the Amazonian cohort.  [upper] is [str.upper]. *)
Definition amazon_depts : list string :=
  ["LORETO"; "UCAYALI"; "MADRE DE DIOS"]%string.

(** [t[t["DEPARTAMEN"].str.upper().isin(scope)]]; a missing department
    matches nothing. *)
Definition in_scope (upper : string -> string) (scope : list string) (r : row) : bool :=
  match DEPARTAMEN r with
  | Some d => existsb (String.eqb (upper d)) scope
  | None => false
  end.

(** The column [t["DEPARTAMEN"]] holds text: the table has no row, or
    some row has a department.  A column of a non-empty table in which
    every department is missing is read as a column of floats. *)
Definition text_column (t : list row) : bool :=
  match t with
  | [] => true
  | _ :: _ => existsb (fun r => match DEPARTAMEN r with Some _ => true | None => false end) t
  end.

(** The [.str] accessor is refused with AttributeError on a column that
    does not hold text. *)
Definition restrict (upper : string -> string) (scope : list string)
    (t : list row) : result (list row) :=
  if text_column t then Ok (filter (in_scope upper scope) t)
  else Raise AttributeError.

Definition t_min_stats_amazonicos (upper : string -> string)
    (t_min_stats : list row) : result (list row) :=
  restrict upper amazon_depts t_min_stats.

Definition global_p10_amazonicos (upper : string -> string)
    (t_min_stats : list row) : result (option Q) :=
  amazonicos <- t_min_stats_amazonicos upper t_min_stats ;;
  threshold (1 # 10) amazonicos.

Definition amazon_target (upper : string -> string)
    (t_min_stats : list row) : result (list row) :=
  amazonicos <- t_min_stats_amazonicos upper t_min_stats ;;
  cohort_rows (1 # 10) amazonicos.

Definition target_unique_amazonicos (upper : string -> string)
    (t_min_stats : list row) : result (list (district_key * option Q)) :=
  amazonicos <- t_min_stats_amazonicos upper t_min_stats ;;
  cohort (1 # 10) amazonicos.

Definition departamentos_amaz (upper : string -> string)
    (t_min_stats : list row) : result (list string) :=
  tu <- target_unique_amazonicos upper t_min_stats ;;
  Ok (unique (map department tu)).

(** Line 205: the table shown under "Departamentos amazonicos presentes en
    el percentil 10" is built from [departamentos], the global list; the
    statements run in order, so the Amazonian cohort is computed first. *)
Definition departamentos_amazonicos_df (upper : string -> string)
    (t_min_stats : list row) : result (list string) :=
  deps <- departamentos t_min_stats ;;
  _ <- departamentos_amaz upper t_min_stats ;;
  Ok deps.

(** The department-scoped cohort query with both parameters left open, as
    lines 185-198 run it for [amazon_depts] and 0.10. *)
Definition scoped_cohort (upper : string -> string) (q : Q) (scope : list string)
    (t : list row) : result (list (district_key * option Q)) :=
  scoped <- restrict upper scope t ;;
  cohort q scoped.

(** [str.upper] on ASCII text. *)
Definition ascii_upper_char (c : Ascii.ascii) : Ascii.ascii :=
  let n := Ascii.nat_of_ascii c in
  if ((97 <=? n) && (n <=? 122))%nat then Ascii.ascii_of_nat (n - 32) else c.

Fixpoint ascii_upper (s : string) : string :=
  match s with
  | EmptyString => EmptyString
  | String c s' => String (ascii_upper_char c) (ascii_upper s')
  end.

(** *** The specification of the grouping *)

(** [v] is the least mean among the rows of [rows] with key [k]. *)
Definition least_mean (k : district_key) (rows : list row) (v : option Q) : Prop :=
  exists m, v = Some m /\
    (exists r, In r rows /\ row_key r = Some k /\ TMIN_mean r = Some m) /\
    (forall r m', In r rows -> row_key r = Some k -> TMIN_mean r = Some m' -> m <= m').

(** [acc] holds one entry per key of [rows], with the least mean of the
    key. *)
Definition groups_of (acc : list (district_key * option Q)) (rows : list row) : Prop :=
  NoDup (map fst acc) /\
  (forall k, In k (map fst acc) <-> exists r, In r rows /\ row_key r = Some k) /\
  (forall k v, In (k, v) acc -> least_mean k rows v).




(** A table with one Andean and one Amazonian district. *)
Definition row_puno : row :=
  {| UBIGEO := Some 210101%Z; DEPARTAMEN := Some "PUNO"%string;
     PROVINCIA := Some "PUNO"%string; DISTRITO := Some "PUNO"%string;
     TMIN_mean := Some (-5 # 1) |}.

Definition row_loreto : row :=
  {| UBIGEO := Some 160101%Z; DEPARTAMEN := Some "Loreto"%string;
     PROVINCIA := Some "MAYNAS"%string; DISTRITO := Some "IQUITOS"%string;
     TMIN_mean := Some (20 # 1) |}.

Definition table_two_regions : list row := [row_puno; row_loreto].


Definition row_no_names : row :=
  {| UBIGEO := Some 999999%Z; DEPARTAMEN := None;
     PROVINCIA := None; DISTRITO := None;
     TMIN_mean := Some (3 # 1) |}.

End Targeting.

(* ================================================================== *)
(** ** The name normalizer: [normalize_str], lines 14-19 *)

Module Unicode.

(** A Python [str] is a sequence of code points. *)
Definition codepoint : Type := N.
Definition str : Type := list codepoint.

(** The tables of the Unicode Character Database that [unicodedata] and
    [str.upper] consult.  [decomposition c] is the full canonical
    decomposition of [c] ([[c]] when it has none), [combining c] its
    canonical combining class, [is_Mn c] whether its general category is
    Mn, [to_upper c] its full upper-case mapping. *)
Record UCD : Type := {
  decomposition : codepoint -> list codepoint;
  combining : codepoint -> N;
  is_Mn : codepoint -> bool;
  to_upper : codepoint -> list codepoint
}.

(** Canonical ordering, one step: the new character [c] is appended to the
    text built so far ([acc], last character first) and, when it is a
    combining mark, moved back over the marks of a higher class. *)
Fixpoint insert_mark (ucd : UCD) (c : codepoint) (acc : list codepoint)
    : list codepoint :=
  match acc with
  | [] => [c]
  | p :: rest =>
      if ((0 <? combining ucd c) && (combining ucd c <? combining ucd p))%N
      then p :: insert_mark ucd c rest
      else c :: acc
  end.

Definition canonical_order (ucd : UCD) (s : str) : str :=
  rev (fold_left (fun acc c => insert_mark ucd c acc) s []).

(** [unicodedata.normalize("NFD", s)]. *)
Definition nfd (ucd : UCD) (s : str) : str :=
  canonical_order ucd (flat_map (decomposition ucd) s).

(** [str.upper()]: every character is replaced by its upper-case mapping. *)
Definition upper (ucd : UCD) (s : str) : str := flat_map (to_upper ucd) s.

Definition normalize_str (ucd : UCD) (s : str) : str :=
  upper ucd (filter (fun c => negb (is_Mn ucd c)) (nfd ucd s)).

(** An excerpt of the database: the rows of the code points used in the
    examples below (Unicode 14).  Every other code point is given the
    default row; the excerpt is only applied to the code points it lists and
    to ASCII. *)
Definition lookup {A : Type} (c : codepoint) (table : list (codepoint * A)) (d : A) : A :=
  match find (fun e => N.eqb c (fst e)) table with
  | Some e => snd e
  | None => d
  end.

Definition excerpt_decomposition : list (codepoint * list codepoint) :=
  [ (0xE1, [0x61; 0x301]);   (* a with acute *)
    (0xE9, [0x65; 0x301]);   (* e with acute *)
    (0xED, [0x69; 0x301]);   (* i with acute *)
    (0xF3, [0x6F; 0x301]);   (* o with acute *)
    (0xFA, [0x75; 0x301]);   (* u with acute *)
    (0xF1, [0x6E; 0x303]);   (* n with tilde *)
    (0xD1, [0x4E; 0x303]) ]%N. (* N with tilde *)

Definition excerpt_combining : list (codepoint * N) :=
  [ (0x301, 230); (0x303, 230);
    (0x302E, 224);     (* HANGUL SINGLE DOT TONE MARK, category Mc *)
    (0x1D165, 216) ]%N. (* MUSICAL SYMBOL COMBINING STEM, category Mc *)

Definition excerpt_Mn : list codepoint :=
  [ 0x301; 0x303;
    0x941 ]%N.         (* DEVANAGARI VOWEL SIGN U, category Mn, class 0 *)

Definition ucd_excerpt : UCD := {|
  decomposition := fun c => lookup c excerpt_decomposition [c];
  combining := fun c => lookup c excerpt_combining 0%N;
  is_Mn := fun c => existsb (N.eqb c) excerpt_Mn;
  to_upper := fun c => if ((0x61 <=? c) && (c <=? 0x7A))%N then [(c - 0x20)%N] else [c]
|}.

(** The code points of an ASCII string. *)
Fixpoint of_ascii (s : string) : str :=
  match s with
  | EmptyString => []
  | String c s' => Ascii.N_of_ascii c :: of_ascii s'
  end.

(** *** Conditions on the tables and on a text *)

(** Two facts of the character database: a canonical decomposition is made
    of characters that decompose no further; and the upper-case mapping of
    such a character, when it is not a nonspacing mark, is made of
    characters that decompose no further, are no nonspacing marks, are their
    own upper case, and are starters when the character is one. *)
Definition ucd_stable (ucd : UCD) : Prop :=
  (forall c d, In d (decomposition ucd c) -> decomposition ucd d = [d]) /\
  (forall d u,
     decomposition ucd d = [d] -> is_Mn ucd d = false -> In u (to_upper ucd d) ->
     decomposition ucd u = [u] /\ is_Mn ucd u = false /\ to_upper ucd u = [u] /\
     (combining ucd d = 0%N -> combining ucd u = 0%N)).

(** Every combining mark (non-zero combining class) in the decomposition of
    the text is a nonspacing mark. *)
Definition marks_are_nonspacing (ucd : UCD) (s : str) : Prop :=
  forall c d, In c s -> In d (decomposition ucd c) -> is_Mn ucd d = false ->
              combining ucd d = 0%N.

(** "Jose" with an acute accent on the e, a space, and "n" with a tilde. *)
Definition text_jose : str := [0x4A; 0x6F; 0x73; 0xE9; 0x20; 0xF1]%N.

(** A Hangul tone mark, a Devanagari vowel sign and a musical stem. *)
Definition text_marks : str := [0x302E; 0x941; 0x1D165]%N.

End Unicode.

(* ================================================================== *)
(** ** Sample inputs *)

Module Samples.
Import Zonal.

(** A 2x2 band holding the value 5, nodata -9999. *)
Definition band5 : ndarray :=
  [ [Some 5; Some 5]; [Some 5; Some 5] ].

Definition src5 : DatasetReader :=
  {| bands := [band5]; nodata := Some (Some (-9999 # 1));
     band_dtype := exact_arithmetic |}.

(** District A covers the whole band; district B lies outside the raster. *)
Definition district_A : feature :=
  {| UBIGEO := 1; DEPARTAMEN := "PUNO"; PROVINCIA := "PUNO"; DISTRITO := "A";
     geometry := {| row_off := 0; col_off := 0;
                    rv_array := [ [true; true]; [true; true] ] |} |}.

Definition district_B : feature :=
  {| UBIGEO := 2; DEPARTAMEN := "PUNO"; PROVINCIA := "PUNO"; DISTRITO := "B";
     geometry := {| row_off := 10; col_off := 10; rv_array := [ [true] ] |} |}.




(** A 1x2 band with one valid cell and one nodata cell, both inside
    district D. *)
Definition band_gap : ndarray := [ [Some 5; Some (-9999 # 1)] ].

Definition src_gap : DatasetReader :=
  {| bands := [band_gap]; nodata := Some (Some (-9999 # 1));
     band_dtype := exact_arithmetic |}.

Definition district_D : feature :=
  {| UBIGEO := 4; DEPARTAMEN := "TACNA"; PROVINCIA := "TACNA"; DISTRITO := "D";
     geometry := {| row_off := 0; col_off := 0; rv_array := [ [true; true] ] |} |}.

(** A 1x2 band of 16-bit signed integers, -30000 and 30000, both inside
    district E.  The mean of the two cells, 0, is exact. *)
Definition band_int16 : ndarray := [ [Some (-30000 # 1); Some (30000 # 1)] ].

Definition src_int16 : DatasetReader :=
  {| bands := [band_int16]; nodata := Some (Some (-9999 # 1));
     band_dtype := integer_type true 16 Numpy.mean Numpy.var |}.

Definition district_E : feature :=
  {| UBIGEO := 5; DEPARTAMEN := "LORETO"; PROVINCIA := "MAYNAS"; DISTRITO := "E";
     geometry := {| row_off := 0; col_off := 0; rv_array := [ [true; true] ] |} |}.

End Samples.

(* ================================================================== *)
(** ** The latest-year slice and the rankings: lines 112-143 *)

(** A row of [result]: the columns of the boundary layer and the [TMIN_]
    columns. *)
Definition result_row : Type := (Zonal.feature * Zonal.stats_row)%type.

(** The order of [sort_values("TMIN_mean")]: numbers in ascending order, a
    missing mean after every number. *)
Definition mean_leb (a b : result_row) : bool :=
  match Zonal.TMIN_mean (snd a), Zonal.TMIN_mean (snd b) with
  | Zonal.Num x, Zonal.Num y => Qle_bool x y
  | Zonal.Num _, _ => true
  | _, Zonal.Num _ => false
  | _, _ => true
  end.

(** The order of [sort_values("TMIN_mean", ascending=False)]: numbers in
    descending order, a missing mean still after every number. *)
Definition mean_geb (a b : result_row) : bool :=
  match Zonal.TMIN_mean (snd a), Zonal.TMIN_mean (snd b) with
  | Zonal.Num x, Zonal.Num y => Qle_bool y x
  | Zonal.Num _, _ => true
  | _, Zonal.Num _ => false
  | _, _ => true
  end.

Lemma mean_leb_total (a b : result_row) : mean_leb a b = true \/ mean_leb b a = true.
Proof.
  unfold mean_leb.
  destruct (Zonal.TMIN_mean (snd a)) as [x | |], (Zonal.TMIN_mean (snd b)) as [y | |];
    auto using Qle_bool_total.
Qed.

Lemma mean_geb_total (a b : result_row) : mean_geb a b = true \/ mean_geb b a = true.
Proof.
  unfold mean_geb.
  destruct (Zonal.TMIN_mean (snd a)) as [x | |], (Zonal.TMIN_mean (snd b)) as [y | |];
    auto using Qle_bool_total.
Qed.

Module AscendingMean <: TotalLeBool.
Definition t : Type := result_row.
Definition leb : t -> t -> bool := mean_leb.
Definition leb_total : forall a b, leb a b = true \/ leb b a = true := mean_leb_total.
End AscendingMean.

Module DescendingMean <: TotalLeBool.
Definition t : Type := result_row.
Definition leb : t -> t -> bool := mean_geb.
Definition leb_total : forall a b, leb a b = true \/ leb b a = true := mean_geb_total.
End DescendingMean.

Module AscendingSort := Sort AscendingMean.
Module DescendingSort := Sort DescendingMean.

Module Views.
Import Zonal.

(** [Series.max()] of an integer column; NaN ([None]) on an empty one. *)
Definition series_max (col : list Z) : option Z :=
  match col with
  | [] => None
  | y :: col' => Some (fold_right Z.max y col')
  end.

(** Line 112. *)
Definition latest_year (result : list result_row) : option Z :=
  series_max (map (fun r => TMIN_YEAR (snd r)) result).

(** [result[result["TMIN_YEAR"] == latest_year]]; nothing equals NaN. *)
Definition year_is (y : option Z) (r : result_row) : bool :=
  match y with
  | Some y' => (TMIN_YEAR (snd r) =? y')%Z
  | None => false
  end.

(** Line 139. *)
Definition gdf_latest (result : list result_row) : list result_row :=
  filter (year_is (latest_year result)) result.

(** Lines 113-117 and 125-129.  pandas leaves the order of rows with equal
    means open; the sort used here keeps them in table order. *)
Definition ranking (result : list result_row) : list result_row :=
  firstn 15 (AscendingSort.sort (gdf_latest result)).

Definition ranking_hot (result : list result_row) : list result_row :=
  firstn 15 (DescendingSort.sort (gdf_latest result)).

(** [a] comes no later than [b] in the cold ranking. *)
Definition colder (a b : result_row) : Prop :=
  match TMIN_mean (snd a), TMIN_mean (snd b) with
  | Num x, Num y => x <= y
  | Num _, _ => True
  | _, Num _ => False
  | _, _ => True
  end.

(** [a] comes no later than [b] in the hot ranking. *)
Definition hotter (a b : result_row) : Prop :=
  match TMIN_mean (snd a), TMIN_mean (snd b) with
  | Num x, Num y => y <= x
  | Num _, _ => True
  | _, Num _ => False
  | _, _ => True
  end.

(** The pixel window of the footprint [g] has no cell in common with the
    array [a]. *)
Definition outside_extent (a : ndarray) (g : footprint) : Prop :=
  (row_off g + Z.of_nat (length (rv_array g)) <= 0)%Z \/
  (Z.of_nat (length a) <= row_off g)%Z \/
  (forall row, In row (rv_array g) -> (col_off g + Z.of_nat (length row) <= 0)%Z) \/
  (forall row, In row a -> (Z.of_nat (length row) <= col_off g)%Z).

(** Every cell of the window is unmasked and holds the value [v]. *)
Definition constant_window (x : MaskedArray) (v : Q) : Prop :=
  forall row c, In row (ma_cells x) -> In c row ->
    snd c = false /\ exists q, fst c = Some q /\ q == v.

End Views.

(* ================================================================== *)
(** ** The cohort aggregates: lines 173-181 and 208-216 *)

Module StringOrder <: TotalLeBool.
Definition t : Type := string.
Definition leb : string -> string -> bool := String.leb.
Definition leb_total : forall a b, leb a b = true \/ leb b a = true := String.leb_total.
End StringOrder.

Module StringSort := Sort StringOrder.

Module Aggregates.
Import Targeting.

(** [Series.mean()]: the mean of the non-missing values, NaN without any.
    The float mean of a non-empty list, [fmean], is a parameter: its
    rounding is that of pandas. *)
Definition series_mean (fmean : list Q -> Q) (col : list (option Q)) : option Q :=
  match Numpy.dropna col with
  | [] => None
  | v :: vs => Some (fmean (v :: vs))
  end.

(** [groupby("DEPARTAMEN")["TMIN_mean"].mean()]: one row per department,
    ordered by department, with the mean of its rows. *)
Definition members (d : string) (tu : list (district_key * option Q))
    : list (district_key * option Q) :=
  filter (fun e => String.eqb (department e) d) tu.

Definition groupby_mean (fmean : list Q -> Q) (tu : list (district_key * option Q))
    : list (string * option Q) :=
  map (fun d => (d, series_mean fmean (map snd (members d tu))))
      (StringSort.sort (unique (map department tu))).




Definition promedio_por_depto_amazonicos (fmean : list Q -> Q)
    (upper : string -> string) (t_min_stats : list row)
    : result (list (string * option Q)) :=
  tu <- target_unique_amazonicos upper t_min_stats ;;
  Ok (groupby_mean fmean tu).

End Aggregates.

(* ================================================================== *)
(** ** The name column: [gdf["NOMBRE"].apply(normalize_str)] *)

Module NameColumn.
Import Unicode.

(** The outcome of [Series.apply]: the new column, or the TypeError that
    [unicodedata.normalize] raises on a value that is not a [str]. *)
Inductive applied : Type :=
| Column (names : list str)
| TypeError.

(** A cell of the NOMBRE column: a text, or a missing value ([None]). *)
Fixpoint apply_normalize_str (ucd : UCD) (col : list (option str)) : applied :=
  match col with
  | [] => Column []
  | None :: _ => TypeError
  | Some s :: col' =>
      match apply_normalize_str ucd col' with
      | Column names => Column (normalize_str ucd s :: names)
      | TypeError => TypeError
      end
  end.

End NameColumn.

(* ================================================================== *)
(** ** Facts on sorting and on the linear percentile *)

Section PercentileFacts.

Local Open Scope Q_scope.


Lemma sort_length (l : list Q) : length (QSort.sort l) = length l.
Proof. symmetry. apply Permutation_length, QSort.Permuted_sort. Qed.

Lemma sort_In (l : list Q) (x : Q) : In x (QSort.sort l) <-> In x l.
Proof.
  split; intro H.
  - eapply Permutation_in; [apply Permutation_sym, QSort.Permuted_sort | exact H].
  - eapply Permutation_in; [apply QSort.Permuted_sort | exact H].
Qed.



Lemma sort_nth_In (l : list Q) (i : nat) :
  (i < length l)%nat -> In (nth i (QSort.sort l) 0) l.
Proof.
  intro H. apply sort_In, nth_In. rewrite sort_length. exact H.
Qed.



Lemma inject_nat_pos (n : nat) : (0 < n)%nat -> 1 <= inject_Z (Z.of_nat n).
Proof. intro H. change 1 with (inject_Z 1). rewrite <- Zle_Qle. lia. Qed.






Lemma minimum_le (v : Q) (vs : list Q) (x : Q) :
  In x (v :: vs) -> Numpy.minimum v vs <= x.
Proof.
  unfold Numpy.minimum. induction vs as [| w vs IH]; simpl; intros H.
  - destruct H as [<- | []]. apply Qle_refl.
  - destruct H as [<- | [<- | H]].
    + eapply Qle_trans; [apply Q.le_min_r | apply IH; left; reflexivity].
    + apply Q.le_min_l.
    + eapply Qle_trans; [apply Q.le_min_r | apply IH; right; exact H].
Qed.

Lemma maximum_ge (v : Q) (vs : list Q) (x : Q) :
  In x (v :: vs) -> x <= Numpy.maximum v vs.
Proof.
  unfold Numpy.maximum. induction vs as [| w vs IH]; simpl; intros H.
  - destruct H as [<- | []]. apply Qle_refl.
  - destruct H as [<- | [<- | H]].
    + eapply Qle_trans; [apply IH; left; reflexivity | apply Q.le_max_r].
    + apply Q.le_max_l.
    + eapply Qle_trans; [apply IH; right; exact H | apply Q.le_max_r].
Qed.



End PercentileFacts.

(* ================================================================== *)
(** ** Properties of [compute_stats] *)

Section ZonalFacts.
Import Zonal.

Lemma compute_stats_ok (gdf : list feature) (src : DatasetReader) (band : Z) :
  (1 <= band <= Z.of_nat (count_bands src))%Z ->
  gdf <> [] ->
  compute_stats gdf src band =
    Ok (map (fun f => feature_stats (feature_window src f band) band) gdf).
Proof.
  intros [H1 H2] Hne. unfold compute_stats, read, feature_window, zonal_stats.
  destruct (band <=? 0)%Z eqn:E; [apply Z.leb_le in E; lia |].
  destruct (nth_error (bands src) (Z.to_nat (band - 1))) as [a |] eqn:En.
  - simpl. erewrite nth_error_nth by exact En.
    destruct gdf; [congruence | reflexivity].
  - apply nth_error_None in En. unfold count_bands in H2. lia.
Qed.

(** The outcome of [compute_stats], case by case: the band read fails
    first, then the empty layer is refused. *)
Lemma compute_stats_cases (gdf : list feature) (src : DatasetReader) (band : Z) :
  compute_stats gdf src band =
    if negb ((1 <=? band)%Z && (band <=? Z.of_nat (count_bands src))%Z)
    then Raise IndexError
    else match gdf with
         | [] => Raise ValueError
         | _ :: _ => Ok (map (fun f => feature_stats (feature_window src f band) band) gdf)
         end.
Proof.
  destruct ((1 <=? band)%Z && (band <=? Z.of_nat (count_bands src))%Z) eqn:E; simpl.
  - apply andb_true_iff in E. destruct E as [E1 E2].
    apply Z.leb_le in E1. apply Z.leb_le in E2.
    destruct gdf as [| f gdf].
    + unfold compute_stats, read.
      destruct (band <=? 0)%Z eqn:E0; [apply Z.leb_le in E0; lia |].
      destruct (nth_error (bands src) (Z.to_nat (band - 1))) as [a |] eqn:En;
        [reflexivity |].
      apply nth_error_None in En. unfold count_bands in E2. lia.
    + apply compute_stats_ok; [lia | discriminate].
  - unfold compute_stats, read.
    destruct (band <=? 0)%Z eqn:E0; [reflexivity |].
    apply Z.leb_gt in E0.
    destruct (nth_error (bands src) (Z.to_nat (band - 1))) as [a |] eqn:En;
      [| reflexivity].
    exfalso.
    assert (Hlt : (Z.to_nat (band - 1) < length (bands src))%nat)
      by (apply nth_error_Some; congruence).
    apply andb_false_iff in E. unfold count_bands in E.
    destruct E as [E | E]; apply Z.leb_gt in E; lia.
Qed.

(** A table returned by [compute_stats]: the band is valid, the layer is
    not empty, and every record is that of a feature of the layer. *)
Lemma compute_stats_inv (gdf : list feature) (src : DatasetReader) (band : Z)
    (table : list stats_row) :
  compute_stats gdf src band = Ok table ->
  (1 <= band <= Z.of_nat (count_bands src))%Z /\ gdf <> [] /\
  table = map (fun f => feature_stats (feature_window src f band) band) gdf.
Proof.
  rewrite compute_stats_cases.
  destruct ((1 <=? band)%Z && (band <=? Z.of_nat (count_bands src))%Z) eqn:E; simpl;
    [| discriminate].
  apply andb_true_iff in E. destruct E as [E1 E2].
  apply Z.leb_le in E1. apply Z.leb_le in E2.
  destruct gdf as [| f gdf]; [discriminate |].
  intro H. inversion H. repeat split; [lia | lia | discriminate].
Qed.

Lemma feature_stats_count (x : MaskedArray) (band : Z) :
  TMIN_count (feature_stats x band) = length (compressed x).
Proof. unfold feature_stats. destruct (compressed x); reflexivity. Qed.

Lemma feature_stats_band (x : MaskedArray) (band : Z) :
  TMIN_BAND (feature_stats x band) = band /\
  TMIN_YEAR (feature_stats x band) = (2019 + band)%Z.
Proof. unfold feature_stats. destruct (compressed x); split; reflexivity. Qed.

(** A record without valid cell: the built-in statistics are missing. *)
Lemma feature_stats_empty (x : MaskedArray) (band : Z) :
  TMIN_count (feature_stats x band) = 0%nat ->
  TMIN_mean (feature_stats x band) = NaN /\
  TMIN_min (feature_stats x band) = NaN /\
  TMIN_max (feature_stats x band) = NaN /\
  TMIN_std (feature_stats x band) = StdNaN.
Proof.
  unfold feature_stats. destruct (compressed x); simpl; [tauto | discriminate].
Qed.

Lemma compressed_in_data (x : MaskedArray) (q : Q) :
  In q (compressed x) -> In q (window_data x).
Proof.
  unfold compressed, window_data, Numpy.dropna, np_array. intro H.
  apply in_flat_map in H. destruct H as (row & Hrow & H).
  apply in_flat_map in H. destruct H as ([v m] & Hc & H). simpl in H.
  destruct m; [destruct H |]. destruct v as [v |]; [| destruct H].
  destruct H as [<- | []].
  apply in_flat_map. exists (Some v). split; [| left; reflexivity].
  apply in_concat. exists (map fst row). split.
  - apply in_map. exact Hrow.
  - change (Some v) with (fst (Some v, false)). apply in_map. exact Hc.
Qed.

Lemma compressed_len (x : MaskedArray) :
  compressed x <> [] -> (0 <? len x)%nat = true.
Proof.
  intro H. apply Nat.ltb_lt. unfold len. unfold compressed in H.
  destruct (ma_cells x); [| simpl; lia].
  exfalso. apply H. reflexivity.
Qed.

End ZonalFacts.

Section ZonalRecords.
Import Zonal.
Local Open Scope Q_scope.

(** The least and the greatest sample are samples. *)
Lemma Qmin_cases (x y : Q) : Qmin x y = x \/ Qmin x y = y.
Proof.
  unfold Qmin, GenericMinMax.gmin. destruct (x ?= y); auto.
Qed.

Lemma minimum_In (v : Q) (vs : list Q) : In (Numpy.minimum v vs) (v :: vs).
Proof.
  unfold Numpy.minimum. induction vs as [| w vs IH]; [left; reflexivity |].
  cbn [fold_right]. destruct (Qmin_cases w (fold_right Qmin v vs)) as [-> | ->].
  - right. left. reflexivity.
  - destruct IH as [IH | IH]; [left; exact IH | right; right; exact IH].
Qed.

Lemma Qmax_cases (x y : Q) : Qmax x y = x \/ Qmax x y = y.
Proof.
  unfold Qmax, GenericMinMax.gmax. destruct (x ?= y); auto.
Qed.

Lemma maximum_In (v : Q) (vs : list Q) : In (Numpy.maximum v vs) (v :: vs).
Proof.
  unfold Numpy.maximum. induction vs as [| w vs IH]; [left; reflexivity |].
  cbn [fold_right]. destruct (Qmax_cases w (fold_right Qmax v vs)) as [-> | ->].
  - right. left. reflexivity.
  - destruct IH as [IH | IH]; [left; exact IH | right; right; exact IH].
Qed.


Lemma percent_fractions :
  0 <= 10 / 100 /\ 10 / 100 <= 90 / 100 /\ 90 / 100 <= 1.
Proof. repeat split; apply Qle_bool_iff; reflexivity. Qed.


(** Between two equal samples the interpolation gives that sample. *)
Lemma lerp_equal (dt : dtype) (a b t : Q) : a == b -> lerp dt a b t == a.
Proof.
  intro H. unfold lerp.
  assert (Hd : subtract dt b a == 0) by (apply subtract_eq; symmetry; exact H).
  destruct (Qle_bool (1 # 2) t); rewrite Hd, ?H; ring.
Qed.

Lemma percentile_index_bound (xs : list Q) (q : Q) :
  xs <> [] -> 0 <= q <= 1 ->
  (Z.to_nat (Qfloor (q * (inject_Z (Z.of_nat (length xs)) - 1))) < length xs)%nat.
Proof.
  intros Hne [Hq0 Hq1].
  assert (Hn : (0 < length xs)%nat) by (destruct xs; [congruence | simpl; lia]).
  pose proof (inject_nat_pos Hn) as Hn1.
  set (h := q * (inject_Z (Z.of_nat (length xs)) - 1)).
  assert (Hh0 : 0 <= h).
  { unfold h. apply Qmult_le_0_compat; lra. }
  assert (Hh1 : h <= inject_Z (Z.of_nat (length xs)) - 1).
  { pose proof (Qmult_le_0_compat (1 - q) (inject_Z (Z.of_nat (length xs)) - 1)) as Hp.
    unfold h. lra. }
  clearbody h.
  pose proof (Qfloor_le h) as Hfl.
  assert (Hf0 : (0 <= Qfloor h)%Z).
  { change 0%Z with (Qfloor 0). apply Qfloor_resp_le. exact Hh0. }
  assert (Hf1 : (Qfloor h <= Z.of_nat (length xs) - 1)%Z).
  { rewrite Zle_Qle. unfold Z.sub. rewrite inject_Z_plus.
    replace (inject_Z (- (1))) with (- (1)) by reflexivity. lra. }
  lia.
Qed.

(** The percentile in the type [dt] and the exact percentile interpolate
    between the same two samples of the list with the same weight. *)
Lemma percentile_samples (dt : dtype) (xs : list Q) (q : Q) :
  xs <> [] -> 0 <= q <= 1 ->
  exists a b g,
    In a xs /\ In b xs /\
    percentile dt xs q = lerp dt a b g /\
    Numpy.percentile xs q = Numpy.lerp a b g.
Proof.
  intros Hne Hq.
  pose proof (percentile_index_bound Hne Hq) as Hi.
  assert (Hn : (0 < length xs)%nat) by (destruct xs; [congruence | simpl; lia]).
  set (h := q * (inject_Z (Z.of_nat (length xs)) - 1)) in *.
  exists (nth (Z.to_nat (Qfloor h)) (QSort.sort xs) 0),
    (nth (Nat.min (S (Z.to_nat (Qfloor h))) (length xs - 1)) (QSort.sort xs) 0),
    (h - inject_Z (Qfloor h)).
  split; [apply sort_nth_In; exact Hi |].
  split; [apply sort_nth_In; lia |].
  unfold percentile, Numpy.percentile. rewrite sort_length. fold h.
  split; reflexivity.
Qed.


(** The percentile of samples that all equal [v] is [v]. *)
Lemma percentile_constant (dt : dtype) (xs : list Q) (q v : Q) :
  xs <> [] -> 0 <= q <= 1 -> (forall x, In x xs -> x == v) ->
  percentile dt xs q == v.
Proof.
  intros Hne Hq Hall.
  destruct (percentile_samples dt Hne Hq) as (a & b & g & Ha & Hb & -> & _).
  rewrite lerp_equal; [apply Hall, Ha |].
  rewrite (Hall a Ha), (Hall b Hb). reflexivity.
Qed.

(** What the record of a window with at least one valid cell holds. *)
Lemma feature_stats_valid (x : MaskedArray) (band : Z) :
  (0 < TMIN_count (feature_stats x band))%nat ->
  exists v vs w ws,
    compressed x = v :: vs /\
    window_data x = w :: ws /\
    TMIN_min (feature_stats x band) = Num (Numpy.minimum v vs) /\
    TMIN_max (feature_stats x band) = Num (Numpy.maximum v vs) /\
    TMIN_mean (feature_stats x band) = Num (mean_of (ma_dtype x) (v :: vs)) /\
    TMIN_std (feature_stats x band) = Sqrt (var_of (ma_dtype x) (v :: vs)) /\
    TMIN_range (feature_stats x band) =
      Num (subtract (ma_dtype x) (Numpy.maximum v vs) (Numpy.minimum v vs)) /\
    TMIN_p10 (feature_stats x band) = Num (percentile (ma_dtype x) (w :: ws) (10 / 100)) /\
    TMIN_p90 (feature_stats x band) = Num (percentile (ma_dtype x) (w :: ws) (90 / 100)).
Proof.
  intro Hc. rewrite feature_stats_count in Hc.
  destruct (compressed x) as [| v vs] eqn:Ec; [simpl in Hc; lia |].
  assert (Hlen : (0 <? len x)%nat = true) by (apply compressed_len; congruence).
  assert (Hin : In v (window_data x)).
  { apply compressed_in_data. rewrite Ec. left. reflexivity. }
  destruct (window_data x) as [| w ws] eqn:Ed; [destruct Hin |].
  exists v, vs, w, ws. unfold window_data in Ed.
  unfold feature_stats, lambda_range, lambda_p10, lambda_p90, np_nanmax, np_nanmin,
    np_nanpercentile, nanpercentile.
  rewrite Ec, Hlen, Ed. simpl. repeat split; reflexivity.
Qed.



(** When no cell is masked, the percentiles and the built-in statistics
    reduce the same values. *)
Lemma all_unmasked_data (x : MaskedArray) :
  (forall row c, In row (ma_cells x) -> In c row -> snd c = false ->
                 exists q, fst c = Some q) ->
  all_unmasked x = true ->
  window_data x = compressed x.
Proof.
  unfold all_unmasked, compressed, window_data, np_array, Numpy.dropna.
  induction (ma_cells x) as [| row cells IH]; intros Hnan Hall; [reflexivity |].
  simpl in Hall. apply andb_true_iff in Hall. destruct Hall as [Hrow Hall].
  simpl. rewrite flat_map_app. f_equal.
  - clear IH Hall.
    assert (Hc : forall c, In c row -> snd c = false -> exists q, fst c = Some q)
      by (intros c Hin; apply (Hnan row c); [left; reflexivity | exact Hin]).
    clear Hnan. induction row as [| [v m] row IH]; [reflexivity |].
    simpl in Hrow. apply andb_true_iff in Hrow. destruct Hrow as [Hm Hrow].
    destruct m; [discriminate |].
    destruct (Hc (v, false) (or_introl eq_refl) eq_refl) as [q Hq]. simpl in Hq. subst v.
    simpl. f_equal. apply IH; [exact Hrow |].
    intros c Hin. apply Hc. right. exact Hin.
  - apply IH; [| exact Hall].
    intros r c Hr. apply Hnan. right. exact Hr.
Qed.

End ZonalRecords.


(* ================================================================== *)
(** ** The band loop and the result table *)

Section BandLoop.
Import Zonal.

Lemma mapM_ok {A B : Type} (f : A -> result B) (g : A -> B) (l : list A) :
  (forall a, In a l -> f a = Ok (g a)) -> mapM f l = Ok (map g l).
Proof.
  induction l as [| a l IH]; intros H; [reflexivity |].
  simpl. rewrite (H a (or_introl eq_refl)). simpl.
  rewrite IH by (intros b Hb; apply H; right; exact Hb). reflexivity.
Qed.

Lemma band_range_spec (src : DatasetReader) (b : Z) :
  In b (band_range src) <-> (1 <= b <= Z.of_nat (count_bands src))%Z.
Proof.
  unfold band_range. rewrite in_map_iff. split.
  - intros (n & <- & Hn). apply in_seq in Hn. lia.
  - intros H. exists (Z.to_nat b). split; [lia |]. apply in_seq. lia.
Qed.

Lemma band_range_length (src : DatasetReader) :
  length (band_range src) = count_bands src.
Proof. unfold band_range. rewrite length_map, length_seq. reflexivity. Qed.

Lemma band_range_NoDup (src : DatasetReader) : NoDup (band_range src).
Proof.
  unfold band_range.
  apply NoDup_map_NoDup_ForallPairs; [| apply seq_NoDup].
  intros a b _ _ H. lia.
Qed.

Lemma pd_concat_nonempty {A : Type} (tables : list (list A)) :
  tables <> [] -> pd_concat tables = Ok (concat tables).
Proof. destruct tables; [congruence | reflexivity]. Qed.

Lemma combine_app_same {A B : Type} (l1 l2 : list A) (m1 m2 : list B) :
  length l1 = length m1 ->
  combine (l1 ++ l2) (m1 ++ m2) = combine l1 m1 ++ combine l2 m2.
Proof.
  revert m1. induction l1 as [| a l1 IH]; intros [| b m1] H; simpl in *;
    try discriminate; [reflexivity |].
  f_equal. apply IH. lia.
Qed.

Lemma combine_map_self {A B : Type} (h : A -> B) (l : list A) :
  combine l (map h l) = map (fun a => (a, h a)) l.
Proof. induction l as [| a l IH]; simpl; [reflexivity | f_equal; exact IH]. Qed.

Lemma combine_repeated {A B : Type} (h : Z -> A -> B) (l : list A) (bs : list Z) :
  combine (concat (repeat l (length bs))) (concat (map (fun b => map (h b) l) bs)) =
  flat_map (fun b => map (fun a => (a, h b a)) l) bs.
Proof.
  induction bs as [| b bs IH]; [reflexivity |].
  simpl. rewrite combine_app_same by (rewrite length_map; reflexivity).
  rewrite combine_map_self, IH. reflexivity.
Qed.

Lemma cross_length {A B : Type} (h : Z -> A -> B) (l : list A) (bs : list Z) :
  length (flat_map (fun b => map (h b) l) bs) = (length bs * length l)%nat.
Proof.
  induction bs as [| b bs IH]; [reflexivity |].
  simpl. rewrite length_app, length_map, IH. reflexivity.
Qed.

Lemma NoDup_map_injective {A B : Type} (f : A -> B) (l : list A) :
  NoDup (map f l) -> forall x y, In x l -> In y l -> f x = f y -> x = y.
Proof.
  induction l as [| a l IH]; intros Hnd x y Hx Hy Heq; [destruct Hx |].
  simpl in Hnd. apply NoDup_cons_iff in Hnd. destruct Hnd as [Ha Hrest].
  destruct Hx as [<- | Hx], Hy as [<- | Hy].
  - reflexivity.
  - exfalso. apply Ha. rewrite Heq. apply in_map. exact Hy.
  - exfalso. apply Ha. rewrite <- Heq. apply in_map. exact Hx.
  - apply IH; assumption.
Qed.

Lemma cross_NoDup (st : Z -> feature -> stats_row) (gdf : list feature) (bs : list Z) :
  (forall b f, TMIN_BAND (st b f) = b) ->
  NoDup bs -> NoDup (map UBIGEO gdf) ->
  NoDup (map row_id (flat_map (fun b => map (fun f => (f, st b f)) gdf) bs)).
Proof.
  intros Hband Hbs Hgdf. induction Hbs as [| b bs Hnotin Hbs IH]; [constructor |].
  simpl. rewrite map_app. apply NoDup_app.
  - rewrite map_map. unfold row_id. simpl.
    apply NoDup_map_NoDup_ForallPairs.
    + intros f1 f2 H1 H2 Heq. rewrite !Hband in Heq.
      apply (NoDup_map_injective UBIGEO gdf Hgdf); [exact H1 | exact H2 | congruence].
    + apply (NoDup_map_inv UBIGEO). exact Hgdf.
  - exact IH.
  - intros [u b'] H1 H2.
    apply in_map_iff in H1. destruct H1 as ([f s] & Hid & H1).
    apply in_map_iff in H1. destruct H1 as (f' & Hf & _).
    inversion Hf; subst f s. unfold row_id in Hid. simpl in Hid.
    rewrite Hband in Hid. inversion Hid; subst u b'.
    apply in_map_iff in H2. destruct H2 as ([f2 s2] & Hid2 & H2).
    apply in_flat_map in H2. destruct H2 as (b2 & Hb2 & H2).
    apply in_map_iff in H2. destruct H2 as (f3 & Hf3 & _).
    inversion Hf3; subst f2 s2. unfold row_id in Hid2. simpl in Hid2.
    rewrite Hband in Hid2. inversion Hid2; subst b2. contradiction.
Qed.

(** The result table in closed form, for a layer with a feature and a
    raster with a band: for each band in turn, each feature paired with its
    record on that band. *)
Lemma result_table_closed_form (gdf : list feature) (src : DatasetReader) :
  (0 < count_bands src)%nat ->
  gdf <> [] ->
  result_table gdf src =
    Ok (flat_map (fun b => map (fun f => (f, feature_stats (feature_window src f b) b)) gdf)
                 (band_range src)).
Proof.
  intros Hn Hgdf. unfold result_table.
  rewrite (mapM_ok (fun b => compute_stats gdf src b)
             (fun b => map (fun f => feature_stats (feature_window src f b) b) gdf)).
  2:{ intros b Hb. apply compute_stats_ok; [apply band_range_spec, Hb | exact Hgdf]. }
  assert (Hne : band_range src <> []).
  { intro E. apply (f_equal (@length Z)) in E. rewrite band_range_length in E.
    simpl in E. lia. }
  simpl. rewrite pd_concat_nonempty.
  2:{ destruct (band_range src); [congruence | discriminate]. }
  simpl. rewrite pd_concat_nonempty.
  2:{ destruct (count_bands src); [lia | discriminate]. }
  simpl. rewrite <- (band_range_length src).
  rewrite (combine_repeated (fun b f => feature_stats (feature_window src f b) b)).
  reflexivity.
Qed.

(** Without a feature in the layer, or without a band in the raster, the
    band loop ends in ValueError: [zonal_stats] refuses the empty layer on
    the first band, and [pd.concat] refuses the empty list of tables. *)
Lemma mapM_raise_first {A B : Type} (f : A -> result B) (l : list A) (e : error) :
  l <> [] -> (forall a, In a l -> f a = Raise e) -> mapM f l = Raise e.
Proof.
  destruct l as [| a l]; [congruence |]. intros _ H.
  simpl. rewrite (H a (or_introl eq_refl)). reflexivity.
Qed.

Lemma result_table_refused (gdf : list feature) (src : DatasetReader) :
  gdf = [] \/ count_bands src = 0%nat ->
  result_table gdf src = Raise ValueError.
Proof.
  intros H. unfold result_table.
  destruct (count_bands src) as [| n] eqn:En.
  - unfold band_range. rewrite En. reflexivity.
  - destruct H as [-> | H]; [| discriminate].
    rewrite (@mapM_raise_first _ _ (fun b => compute_stats [] src b) _ ValueError);
      [reflexivity | |].
    + unfold band_range. rewrite En. discriminate.
    + intros b Hb. rewrite compute_stats_cases.
      apply band_range_spec in Hb.
      replace ((1 <=? b)%Z && (b <=? Z.of_nat (count_bands src))%Z) with true;
        [reflexivity |].
      symmetry. apply andb_true_iff. split; apply Z.leb_le; lia.
Qed.

End BandLoop.

(* ================================================================== *)
(** ** Statements on the zonal statistics engine *)

Section ZonalClaims.
Import Zonal Samples.
Local Open Scope Q_scope.

(** C1, evaluated on the code.  District B lies fully outside the 2x2
    raster, so its window holds only the nodata fill.  The record has count
    0 and mean, min, max, std missing, but p10 and p90 are the nodata
    sentinel -9999 and range is numpy's masked constant: the record is not
    all not-a-number.  The [add_stats] lambdas receive the masked window,
    test its number of rows and take the percentile of its unmasked copy. *)
Theorem compute_stats_outside_extent_record :
  exists r p10 p90,
    compute_stats [district_B] src5 1 = Ok [r] /\
    TMIN_count r = 0%nat /\
    TMIN_mean r = NaN /\ TMIN_min r = NaN /\ TMIN_max r = NaN /\
    TMIN_std r = StdNaN /\
    TMIN_p10 r = Num p10 /\ p10 == -9999 /\
    TMIN_p90 r = Num p90 /\ p90 == -9999 /\
    TMIN_range r = Masked /\
    ~ all_statistics_nan r.
Proof.
  eexists. eexists. eexists.
  split; [vm_compute; reflexivity |].
  repeat (split; [reflexivity |]).
  intros (_ & _ & _ & _ & H & _). discriminate H.
Qed.




(** The percentiles see the masked cells too.  District D has one valid
    cell, 5, next to a nodata cell: min = max = 5, while p10 is interpolated
    between -9999 and 5 and lies below min. *)
Lemma compute_stats_masked_cell_example :
  exists r,
    compute_stats [district_D] src_gap 1 = Ok [r] /\
    TMIN_count r = 1%nat /\
    TMIN_min r = Num 5 /\ TMIN_max r = Num 5 /\
    ~ value_le (TMIN_min r) (TMIN_p10 r).
Proof.
  eexists. split; [vm_compute; reflexivity |].
  repeat (split; [reflexivity |]).
  intro H. simpl in H. apply Qle_bool_iff in H. vm_compute in H. discriminate H.
Qed.

(** C7, as amended.  [compute_stats] checks neither the raster metadata nor
    the boundary layer itself.  It raises IndexError when the band index is
    outside 1..count (the raster read fails); for a valid band and an empty
    layer it raises ValueError, which comes from rasterstats; for a valid
    band and a layer with a feature it returns one record per feature, and a
    feature without valid cell gets a record with count 0 whose mean, min,
    max and std are missing. *)
Theorem compute_stats_failures (gdf : list feature) (src : DatasetReader) (band : Z) :
  let valid := ((1 <=? band)%Z && (band <=? Z.of_nat (count_bands src))%Z) in
  (valid = false -> compute_stats gdf src band = Raise IndexError) /\
  (valid = true -> gdf = [] -> compute_stats gdf src band = Raise ValueError) /\
  (valid = true -> gdf <> [] ->
   exists table,
     compute_stats gdf src band = Ok table /\
     length table = length gdf /\
     forall f, In f gdf -> compressed (feature_window src f band) = [] ->
       exists r, In r table /\
         r = feature_stats (feature_window src f band) band /\
         TMIN_count r = 0%nat /\ TMIN_mean r = NaN /\ TMIN_min r = NaN /\
         TMIN_max r = NaN /\ TMIN_std r = StdNaN).
Proof.
  intro valid. rewrite compute_stats_cases. fold valid.
  split; [intros ->; reflexivity |].
  split; [intros -> ->; reflexivity |].
  intros -> Hne. simpl. destruct gdf as [| f0 gdf0] eqn:Eg; [congruence |].
  rewrite <- Eg in *. clear Eg.
  eexists. split; [reflexivity |]. split; [apply length_map |].
  intros f Hf Hempty.
  exists (feature_stats (feature_window src f band) band).
  split; [apply in_map_iff; exists f; auto |]. split; [reflexivity |].
  assert (Hc : TMIN_count (feature_stats (feature_window src f band) band) = 0%nat)
    by (rewrite feature_stats_count, Hempty; reflexivity).
  split; [exact Hc |]. apply feature_stats_empty, Hc.
Qed.

Lemma compute_stats_failures_witness :
  exists table,
    compute_stats [district_A; district_B] src5 1 = Ok table /\
    length table = length [district_A; district_B] /\
    forall f, In f [district_A; district_B] -> compressed (feature_window src5 f 1) = [] ->
      exists r, In r table /\
        r = feature_stats (feature_window src5 f 1) 1 /\
        TMIN_count r = 0%nat /\ TMIN_mean r = NaN /\ TMIN_min r = NaN /\
        TMIN_max r = NaN /\ TMIN_std r = StdNaN.
Proof.
  apply (proj2 (proj2 (@compute_stats_failures [district_A; district_B] src5 1))).
  - reflexivity.
  - discriminate.
Defined.

(** C7 as stated fails: no error of the program tells an empty boundary
    layer apart.  With an empty layer the band read still comes first, so a
    band outside the raster gives the IndexError of any layer; the
    ValueError of an empty layer on a valid band is the one that
    [pd.concat] raises too. *)
Lemma compute_stats_empty_collection_counterexample :
  compute_stats [] src5 2 = Raise IndexError /\
  compute_stats [district_A] src5 2 = Raise IndexError /\
  compute_stats [] src5 1 = Raise ValueError /\
  pd_concat (@nil (list stats_row)) = Raise ValueError.
Proof. repeat split; reflexivity. Qed.

(** C8, as amended.  For a boundary layer of M >= 1 features with distinct
    identifiers and a raster of N >= 1 bands, the result table is, band
    after band, every feature paired with its record on that band: it has
    N * M rows, no two rows share (identifier, band), every row carries a
    feature of the layer unchanged, and every feature occurs once with every
    band. *)
Theorem result_table_cross_product (gdf : list feature) (src : DatasetReader) :
  (0 < count_bands src)%nat ->
  gdf <> [] ->
  NoDup (map UBIGEO gdf) ->
  exists result,
    result_table gdf src = Ok result /\
    result = flat_map (fun b => map (fun f => (f, feature_stats (feature_window src f b) b))
                                    gdf) (band_range src) /\
    length result = (count_bands src * length gdf)%nat /\
    NoDup (map row_id result) /\
    (forall f st, In (f, st) result ->
       In f gdf /\ (1 <= TMIN_BAND st <= Z.of_nat (count_bands src))%Z) /\
    (forall f b, In f gdf -> (1 <= b <= Z.of_nat (count_bands src))%Z ->
       exists st, In (f, st) result /\ TMIN_BAND st = b).
Proof.
  intros Hn Hne Hnd. eexists.
  split; [apply result_table_closed_form; [exact Hn | exact Hne] |].
  split; [reflexivity |].
  split.
  { rewrite (cross_length (fun b f => (f, feature_stats (feature_window src f b) b))).
    rewrite band_range_length. reflexivity. }
  split.
  { apply (cross_NoDup (fun b f => feature_stats (feature_window src f b) b)).
    - intros b f. apply feature_stats_band.
    - apply band_range_NoDup.
    - exact Hnd. }
  split.
  - intros f st H. apply in_flat_map in H. destruct H as (b & Hb & H).
    apply in_map_iff in H. destruct H as (f' & Heq & Hf). inversion Heq; subst.
    split; [exact Hf |].
    rewrite (proj1 (feature_stats_band _ _)). apply band_range_spec, Hb.
  - intros f b Hf Hb. exists (feature_stats (feature_window src f b) b).
    split; [| apply feature_stats_band].
    apply in_flat_map. exists b. split; [apply band_range_spec, Hb |].
    apply in_map_iff. exists f. auto.
Qed.

Lemma result_table_cross_product_witness :
  exists result,
    result_table [district_A; district_B] src5 = Ok result /\
    result = flat_map (fun b => map (fun f => (f, feature_stats (feature_window src5 f b) b))
                                    [district_A; district_B]) (band_range src5) /\
    length result = (count_bands src5 * length [district_A; district_B])%nat /\
    NoDup (map row_id result) /\
    (forall f st, In (f, st) result ->
       In f [district_A; district_B] /\
       (1 <= TMIN_BAND st <= Z.of_nat (count_bands src5))%Z) /\
    (forall f b, In f [district_A; district_B] ->
       (1 <= b <= Z.of_nat (count_bands src5))%Z ->
       exists st, In (f, st) result /\ TMIN_BAND st = b).
Proof.
  apply (@result_table_cross_product [district_A; district_B] src5).
  - unfold count_bands. simpl. lia.
  - discriminate.
  - simpl. repeat constructor; simpl; intuition discriminate.
Defined.

(** C8 as stated fails for M = 0: on an empty boundary layer the band loop
    does not give a table of N * 0 = 0 rows, it ends in the ValueError that
    rasterstats raises on the first band. *)
Lemma result_table_empty_layer_counterexample :
  result_table [] src5 = Raise ValueError /\
  count_bands src5 = 1%nat /\
  NoDup (map UBIGEO (@nil feature)).
Proof. split; [reflexivity |]. split; [reflexivity | constructor]. Qed.

End ZonalClaims.

(* ================================================================== *)
(** ** Facts on the threshold, the selection and the grouping *)

Section TargetingFacts.
Import Targeting.
Local Open Scope Q_scope.

Lemma quantile_in_range (col : list (option Q)) (q : Q) :
  0 <= q <= 1 -> quantile col q = Ok (Numpy.nanpercentile col q).
Proof.
  intros [H0 H1]. unfold quantile.
  apply Qle_bool_iff in H0. apply Qle_bool_iff in H1. rewrite H0, H1. reflexivity.
Qed.

Lemma quantile_out_of_range (col : list (option Q)) (q : Q) :
  ~ (0 <= q <= 1) -> quantile col q = Raise ValueError.
Proof.
  intro H. unfold quantile.
  destruct (Qle_bool 0 q) eqn:E0; [| reflexivity].
  destruct (Qle_bool q 1) eqn:E1; [| reflexivity].
  exfalso. apply H. split; apply Qle_bool_iff; assumption.
Qed.

Lemma dropna_In (col : list (option Q)) (m : Q) :
  In m (Numpy.dropna col) <-> In (Some m) col.
Proof.
  unfold Numpy.dropna. rewrite in_flat_map. split.
  - intros ([x |] & Hx & H); [| destruct H]. destruct H as [<- | []]. exact Hx.
  - intro H. exists (Some m). split; [exact H | left; reflexivity].
Qed.

Lemma select_In (t : list row) (thr : option Q) (r : row) :
  In r (select t thr) <->
  In r t /\ exists m x, TMIN_mean r = Some m /\ thr = Some x /\ m <= x.
Proof.
  unfold select. rewrite filter_In. unfold le_threshold. split.
  - intros [Hin H]. split; [exact Hin |].
    destruct (TMIN_mean r) as [m |]; [| discriminate].
    destruct thr as [x |]; [| discriminate].
    exists m, x. apply Qle_bool_iff in H. auto.
  - intros [Hin (m & x & -> & -> & H)]. split; [exact Hin |].
    apply Qle_bool_iff. exact H.
Qed.



Lemma key_eqb_eq (a b : district_key) : key_eqb a b = true <-> a = b.
Proof.
  destruct a as [[[u1 d1] p1] n1], b as [[[u2 d2] p2] n2]. unfold key_eqb.
  rewrite !andb_true_iff, Z.eqb_eq, !String.eqb_eq. split.
  - intros [[[-> ->] ->] ->]. reflexivity.
  - intro H. inversion H. auto.
Qed.

Lemma key_eqb_refl (a : district_key) : key_eqb a a = true.
Proof. apply key_eqb_eq. reflexivity. Qed.

Lemma key_eqb_neq (a b : district_key) : key_eqb a b = false <-> a <> b.
Proof.
  split.
  - intros H E. apply key_eqb_eq in E. congruence.
  - intro H. destruct (key_eqb a b) eqn:E; [| reflexivity].
    apply key_eqb_eq in E. contradiction.
Qed.

End TargetingFacts.

Section GroupingFacts.
Import Targeting.
Local Open Scope Q_scope.

Lemma upsert_keys (k : district_key) (v : option Q) (acc : list (district_key * option Q))
    (k' : district_key) :
  In k' (map fst (upsert k v acc)) <-> k' = k \/ In k' (map fst acc).
Proof.
  induction acc as [| [k0 v0] acc IH]; simpl.
  - intuition.
  - destruct (key_eqb k k0) eqn:E; simpl.
    + apply key_eqb_eq in E. subst k0. intuition.
    + rewrite IH. intuition.
Qed.

Lemma upsert_NoDup (k : district_key) (v : option Q) (acc : list (district_key * option Q)) :
  NoDup (map fst acc) -> NoDup (map fst (upsert k v acc)).
Proof.
  induction acc as [| [k0 v0] acc IH]; simpl; intro H.
  - constructor; [intros [] | constructor].
  - apply NoDup_cons_iff in H. destruct H as [Hk0 Hrest].
    destruct (key_eqb k k0) eqn:E; simpl.
    + constructor; assumption.
    + constructor; [| apply IH, Hrest].
      rewrite upsert_keys. intros [-> | H]; [| contradiction].
      rewrite key_eqb_refl in E. discriminate.
Qed.

Lemma upsert_entries (k : district_key) (v : option Q)
    (acc : list (district_key * option Q)) (k' : district_key) (v' : option Q) :
  NoDup (map fst acc) ->
  In (k', v') (upsert k v acc) ->
  (k' <> k /\ In (k', v') acc) \/
  (k' = k /\ ((~ In k (map fst acc) /\ v' = v) \/
              (exists v0, In (k, v0) acc /\ v' = nanmin v0 v))).
Proof.
  induction acc as [| [k0 v0] acc IH]; simpl; intro Hnd.
  - intros [H | []]. inversion H; subst. right. split; [reflexivity |]. left. tauto.
  - apply NoDup_cons_iff in Hnd. destruct Hnd as [Hk0 Hrest].
    destruct (key_eqb k k0) eqn:E.
    + apply key_eqb_eq in E. subst k0. intros [H | H].
      * inversion H; subst. right. split; [reflexivity |]. right.
        exists v0. split; [left; reflexivity | reflexivity].
      * left. split; [| right; exact H].
        intros ->. apply Hk0. change k with (fst (k, v')). apply in_map. exact H.
    + apply key_eqb_neq in E. intros [H | H].
      * inversion H; subst. left. split; [congruence | left; reflexivity].
      * destruct (IH Hrest H) as [[Hne Hin] | [-> [[Hnot ->] | (v1 & Hin & ->)]]].
        -- left. split; [exact Hne | right; exact Hin].
        -- right. split; [reflexivity |]. left. split; [| reflexivity].
           intros [Heq | Hin]; [congruence | contradiction].
        -- right. split; [reflexivity |]. right. exists v1.
           split; [right; exact Hin | reflexivity].
Qed.

(** One step of the grouping keeps the accumulator a grouping of the rows
    seen so far. *)
Lemma group_step_groups_of (acc : list (district_key * option Q)) (seen : list row)
    (r : row) (m : Q) :
  groups_of acc seen -> TMIN_mean r = Some m ->
  groups_of (group_step acc r) (seen ++ [r]).
Proof.
  intros (Hnd & Hkeys & Hvals) Hm. unfold group_step.
  destruct (row_key r) as [k |] eqn:Ek.
  - split; [apply upsert_NoDup, Hnd |]. split.
    + intro k'. rewrite upsert_keys, Hkeys. split.
      * intros [-> | (r' & Hr' & Hk')].
        -- exists r. split; [apply in_or_app; right; left; reflexivity | exact Ek].
        -- exists r'. split; [apply in_or_app; left; exact Hr' | exact Hk'].
      * intros (r' & Hr' & Hk'). apply in_app_or in Hr'.
        destruct Hr' as [Hr' | [<- | []]].
        -- right. exists r'. auto.
        -- left. congruence.
    + intros k' v' Hin. rewrite Hm in Hin.
      destruct (upsert_entries _ _ _ _ _ Hnd Hin)
        as [[Hne Hacc] | [-> [[Hnot ->] | (v0 & Hacc & ->)]]].
      * destruct (Hvals _ _ Hacc) as (m0 & -> & (r0 & Hr0 & Hk0 & Hm0) & Hle).
        exists m0. split; [reflexivity |]. split.
        -- exists r0. split; [apply in_or_app; left; exact Hr0 | auto].
        -- intros r' m' Hr' Hk' Hm'. apply in_app_or in Hr'.
           destruct Hr' as [Hr' | [<- | []]]; [eapply Hle; eauto | congruence].
      * exists m. split; [reflexivity |]. split.
        -- exists r. split; [apply in_or_app; right; left; reflexivity | auto].
        -- intros r' m' Hr' Hk' Hm'. apply in_app_or in Hr'.
           destruct Hr' as [Hr' | [<- | []]].
           ++ exfalso. apply Hnot, Hkeys. exists r'. auto.
           ++ rewrite Hm in Hm'. inversion Hm'; subst. apply Qle_refl.
      * destruct (Hvals _ _ Hacc) as (m0 & -> & (r0 & Hr0 & Hk0 & Hm0) & Hle).
        simpl. exists (Qmin m0 m). split; [reflexivity |]. split.
        -- destruct (Qmin_cases m0 m) as [-> | ->].
           ++ exists r0. split; [apply in_or_app; left; exact Hr0 | auto].
           ++ exists r. split; [apply in_or_app; right; left; reflexivity | auto].
        -- intros r' m' Hr' Hk' Hm'. apply in_app_or in Hr'.
           destruct Hr' as [Hr' | [<- | []]].
           ++ eapply Qle_trans; [apply Q.le_min_l | eapply Hle; eauto].
           ++ rewrite Hm in Hm'. inversion Hm'; subst. apply Q.le_min_r.
  - split; [exact Hnd |]. split.
    + intro k'. rewrite Hkeys. split.
      * intros (r' & Hr' & Hk'). exists r'. split; [apply in_or_app; left; exact Hr' | exact Hk'].
      * intros (r' & Hr' & Hk'). apply in_app_or in Hr'.
        destruct Hr' as [Hr' | [<- | []]]; [exists r'; auto | congruence].
    + intros k' v' Hin.
      destruct (Hvals _ _ Hin) as (m0 & -> & (r0 & Hr0 & Hk0 & Hm0) & Hle).
      exists m0. split; [reflexivity |]. split.
      * exists r0. split; [apply in_or_app; left; exact Hr0 | auto].
      * intros r' m' Hr' Hk' Hm'. apply in_app_or in Hr'.
        destruct Hr' as [Hr' | [<- | []]]; [eapply Hle; eauto | congruence].
Qed.

Lemma fold_groups_of (rows : list row) :
  forall acc seen,
    groups_of acc seen ->
    (forall r, In r rows -> exists m, TMIN_mean r = Some m) ->
    groups_of (fold_left group_step rows acc) (seen ++ rows).
Proof.
  induction rows as [| r rows IH]; intros acc seen Hrep Hnum.
  - rewrite app_nil_r. exact Hrep.
  - simpl. destruct (Hnum r (or_introl eq_refl)) as [m Hm].
    replace (seen ++ r :: rows) with ((seen ++ [r]) ++ rows)
      by (rewrite <- app_assoc; reflexivity).
    apply IH.
    + eapply group_step_groups_of; eauto.
    + intros r' Hr'. apply Hnum. right. exact Hr'.
Qed.

(** [groupby_min] on rows whose means are numbers: one entry per district
    key, holding the least mean of the district. *)
Lemma groupby_min_groups_of (rows : list row) :
  (forall r, In r rows -> exists m, TMIN_mean r = Some m) ->
  groups_of (groupby_min rows) rows.
Proof.
  intro Hnum.
  assert (Hg : groups_of (groups rows) rows).
  { apply (fold_groups_of rows (acc := []) (seen := [])); [| exact Hnum].
    split; [constructor |]. split.
    - intro k. simpl. split; [intros [] | intros (r & [] & _)].
    - intros k v []. }
  destruct Hg as (Hnd & Hkeys & Hvals). unfold groupby_min.
  pose proof (KeySort.Permuted_sort (groups rows)) as Hp.
  split; [| split].
  - eapply Permutation_NoDup; [apply Permutation_map, Hp | exact Hnd].
  - intro k. rewrite <- Hkeys. split; intro H.
    + eapply Permutation_in; [apply Permutation_map, Permutation_sym, Hp | exact H].
    + eapply Permutation_in; [apply Permutation_map, Hp | exact H].
  - intros k v H. apply Hvals.
    eapply Permutation_in; [apply Permutation_sym, Hp | exact H].
Qed.

Lemma select_numbers (t : list row) (thr : option Q) (r : row) :
  In r (select t thr) -> exists m, TMIN_mean r = Some m.
Proof.
  intro H. apply select_In in H. destruct H as (_ & m & _ & Hm & _). eauto.
Qed.

End GroupingFacts.

(* ================================================================== *)
(** ** Statements on the percentile targeting *)

Section TargetingClaims.
Import Targeting.
Local Open Scope Q_scope.

Lemma cohort_unfold (t : list row) (p : Q) :
  0 <= p <= 1 ->
  threshold p t = Ok (Numpy.nanpercentile (map TMIN_mean t) p) /\
  cohort_rows p t = Ok (select t (Numpy.nanpercentile (map TMIN_mean t) p)) /\
  cohort p t = Ok (groupby_min (select t (Numpy.nanpercentile (map TMIN_mean t) p))).
Proof.
  intro Hp. unfold cohort, cohort_rows, threshold.
  rewrite (quantile_in_range _ Hp). repeat split.
Qed.









End TargetingClaims.

Section ScopedClaims.
Import Targeting.
Local Open Scope Q_scope.

Lemma in_scope_spec (upper : string -> string) (scope : list string) (r : row) :
  in_scope upper scope r = true <->
  exists d, DEPARTAMEN r = Some d /\ In (upper d) scope.
Proof.
  unfold in_scope. split.
  - intro H. destruct (DEPARTAMEN r) as [d |]; [| discriminate].
    exists d. split; [reflexivity |].
    apply existsb_exists in H. destruct H as (s & Hs & Heq).
    apply String.eqb_eq in Heq. subst s. exact Hs.
  - intros (d & -> & Hd).
    apply existsb_exists. exists (upper d). split; [exact Hd | apply String.eqb_refl].
Qed.

(** The entries of the cohort of a table filtered by department belong to
    the departments of the scope. *)
Lemma cohort_of_scope (upper : string -> string) (scope : list string)
    (t : list row) (thr : option Q) (e : district_key * option Q) :
  In e (groupby_min (select (filter (in_scope upper scope) t) thr)) ->
  In (upper (department e)) scope.
Proof.
  destruct e as [k v]. intro Hin.
  destruct (@groupby_min_groups_of (select (filter (in_scope upper scope) t) thr))
    as (_ & Hkeys & _); [intros r Hr; eapply select_numbers, Hr |].
  assert (Hk : In k (map fst (groupby_min
                 (select (filter (in_scope upper scope) t) thr))))
    by (change k with (fst (k, v)); apply in_map; exact Hin).
  apply Hkeys in Hk. destruct Hk as (r & Hr & Hkey).
  apply select_In in Hr. destruct Hr as (Hr & _).
  apply filter_In in Hr. destruct Hr as (_ & Hr).
  apply in_scope_spec in Hr. destruct Hr as (d & Hd & Hscope).
  unfold row_key in Hkey. rewrite Hd in Hkey.
  destruct (UBIGEO r), (PROVINCIA r), (DISTRITO r); try discriminate.
  inversion Hkey; subst k. exact Hscope.
Qed.

(** C6, as amended.  The scoped cohort query defines no error of its own.
    On a table with rows of which none has a department, the [.str]
    accessor of line 186 raises AttributeError, whatever the percentile.
    Otherwise, with a percentile in [0,1], the query returns a cohort: every
    entry belongs to a department whose upper-cased name is an element of
    the scope, and when the scope matches no row the cohort is empty (the
    threshold is NaN); with a percentile outside [0,1] the quantile call
    raises ValueError. *)
Theorem scoped_cohort_behaviour (upper : string -> string) (scope : list string)
    (t : list row) (q : Q) :
  0 <= q <= 1 ->
  (text_column t = false ->
   scoped_cohort upper q scope t = Raise AttributeError) /\
  (text_column t = true ->
   exists c,
     scoped_cohort upper q scope t = Ok c /\
     (forall e, In e c -> In (upper (department e)) scope) /\
     (filter (in_scope upper scope) t = [] -> c = [])) /\
  (forall q', ~ (0 <= q' <= 1) ->
     scoped_cohort upper q' scope t =
       if text_column t then Raise ValueError else Raise AttributeError).
Proof.
  intro Hq. unfold scoped_cohort, restrict.
  split; [intros ->; reflexivity |]. split.
  - intros ->. simpl.
    destruct (cohort_unfold (filter (in_scope upper scope) t) Hq) as (_ & _ & Hc).
    eexists. split; [exact Hc |]. split.
    + intros e. apply cohort_of_scope.
    + intros ->. reflexivity.
  - intros q' Hq'. destruct (text_column t); [| reflexivity].
    simpl. unfold cohort, cohort_rows, threshold.
    rewrite (quantile_out_of_range _ Hq'). reflexivity.
Qed.

Lemma scoped_cohort_behaviour_witness :
  0 <= 1 # 10 <= 1 /\
  text_column table_two_regions = true /\
  exists c,
    scoped_cohort ascii_upper (1 # 10) amazon_depts table_two_regions = Ok c /\
    (forall e, In e c -> In (ascii_upper (department e)) amazon_depts) /\
    (filter (in_scope ascii_upper amazon_depts) table_two_regions = [] -> c = []).
Proof.
  assert (Hq : 0 <= 1 # 10 <= 1) by (split; apply Qle_bool_iff; reflexivity).
  split; [exact Hq |]. split; [reflexivity |].
  exact (proj1 (proj2 (@scoped_cohort_behaviour ascii_upper amazon_depts
                         table_two_regions (1 # 10) Hq)) eq_refl).
Defined.

(** C6 as stated fails: on a table whose only row is from Puno the
    Amazonian scope matches no row, and the cohort code returns the empty
    cohort instead of raising; the only error an out-of-range percentile
    can meet is the ValueError of the quantile call; and the only error a
    scope can meet is the AttributeError of a table without any
    department. *)
Lemma scoped_cohort_empty_scope_counterexample :
  t_min_stats_amazonicos ascii_upper [row_puno] = Ok [] /\
  global_p10_amazonicos ascii_upper [row_puno] = Ok None /\
  target_unique_amazonicos ascii_upper [row_puno] = Ok [] /\
  raises (target_unique_amazonicos ascii_upper [row_puno]) = false /\
  scoped_cohort ascii_upper (3 # 2) amazon_depts [row_puno] = Raise ValueError /\
  target_unique_amazonicos ascii_upper [row_no_names] = Raise AttributeError.
Proof. repeat split. Qed.

(** C9, evaluated on the code.  On a table with one district of Puno
    (mean -5) and one of Loreto (mean 20) the Amazonian cohort is the
    district of Loreto and [departamentos_amaz] is its department, but the
    table shown for the Amazonian cohort, built on line 205 from
    [departamentos], lists Puno, the department of the global cohort. *)
Theorem amazon_departments_table_is_global :
  target_unique_amazonicos ascii_upper table_two_regions =
    Ok [((160101%Z, "Loreto"%string, "MAYNAS"%string, "IQUITOS"%string), Some (20 # 1))] /\
  departamentos_amaz ascii_upper table_two_regions = Ok ["Loreto"%string] /\
  departamentos table_two_regions = Ok ["PUNO"%string] /\
  departamentos_amazonicos_df ascii_upper table_two_regions = Ok ["PUNO"%string].
Proof. repeat split; vm_compute; reflexivity. Qed.

End ScopedClaims.

(* ================================================================== *)
(** ** Statements on the name normalizer *)

Section NormalizerClaims.
Import Unicode.

Lemma insert_mark_In (ucd : UCD) (c : codepoint) (acc : list codepoint) (x : codepoint) :
  In x (insert_mark ucd c acc) <-> x = c \/ In x acc.
Proof.
  induction acc as [| p rest IH]; simpl.
  - intuition.
  - destruct ((0 <? combining ucd c) && (combining ucd c <? combining ucd p))%N; simpl.
    + rewrite IH. intuition.
    + intuition.
Qed.

Lemma canonical_order_In (ucd : UCD) (s : str) (x : codepoint) :
  In x (canonical_order ucd s) <-> In x s.
Proof.
  unfold canonical_order. rewrite <- in_rev.
  assert (H : forall acc, In x (fold_left (fun a c => insert_mark ucd c a) s acc)
                          <-> In x s \/ In x acc).
  { induction s as [| c s IH]; intro acc; simpl.
    - intuition.
    - rewrite IH, insert_mark_In. intuition. }
  rewrite H. simpl. intuition.
Qed.

Lemma canonical_order_starters (ucd : UCD) (s : str) :
  (forall c, In c s -> combining ucd c = 0%N) -> canonical_order ucd s = s.
Proof.
  intro H. unfold canonical_order.
  assert (Hf : forall acc, fold_left (fun a c => insert_mark ucd c a) s acc = rev s ++ acc).
  { induction s as [| c s IH]; intro acc; [reflexivity |].
    simpl. rewrite IH by (intros d Hd; apply H; right; exact Hd).
    rewrite <- app_assoc. simpl. f_equal.
    destruct acc as [| p rest]; [reflexivity |].
    simpl. rewrite (H c (or_introl eq_refl)). reflexivity. }
  rewrite Hf, app_nil_r. apply rev_involutive.
Qed.

Lemma flat_map_singletons {A : Type} (f : A -> list A) (l : list A) :
  (forall x, In x l -> f x = [x]) -> flat_map f l = l.
Proof.
  induction l as [| a l IH]; intro H; [reflexivity |].
  simpl. rewrite (H a (or_introl eq_refl)). simpl. f_equal.
  apply IH. intros x Hx. apply H. right. exact Hx.
Qed.

Lemma filter_all {A : Type} (f : A -> bool) (l : list A) :
  (forall x, In x l -> f x = true) -> filter f l = l.
Proof.
  induction l as [| a l IH]; intro H; [reflexivity |].
  simpl. rewrite (H a (or_introl eq_refl)). f_equal.
  apply IH. intros x Hx. apply H. right. exact Hx.
Qed.

(** The characters of a normalized text. *)
Lemma normalize_str_chars (ucd : UCD) (s : str) (u : codepoint) :
  In u (normalize_str ucd s) ->
  exists c d, In c s /\ In d (decomposition ucd c) /\ is_Mn ucd d = false /\
              In u (to_upper ucd d).
Proof.
  unfold normalize_str, upper, nfd. intro H.
  apply in_flat_map in H. destruct H as (d & Hd & Hu).
  apply filter_In in Hd. destruct Hd as [Hd Hmn].
  apply canonical_order_In in Hd. apply in_flat_map in Hd. destruct Hd as (c & Hc & Hd).
  exists c, d. repeat split; try assumption.
  apply negb_true_iff. exact Hmn.
Qed.

(** C5, as amended.  With the character tables of Unicode, [normalize_str]
    is idempotent on every text whose decomposition has no combining mark
    other than nonspacing ones.  (The function is total: it is defined on
    every sequence of code points.) *)
Theorem normalize_str_idempotent (ucd : UCD) (s : str) :
  ucd_stable ucd ->
  marks_are_nonspacing ucd s ->
  normalize_str ucd (normalize_str ucd s) = normalize_str ucd s.
Proof.
  intros [Hdec Hup] Hmarks.
  assert (Hchars : forall u, In u (normalize_str ucd s) ->
            decomposition ucd u = [u] /\ is_Mn ucd u = false /\
            to_upper ucd u = [u] /\ combining ucd u = 0%N).
  { intros u Hu. apply normalize_str_chars in Hu.
    destruct Hu as (c & d & Hc & Hd & Hmn & Hu).
    destruct (Hup d u (Hdec c d Hd) Hmn Hu) as (H1 & H2 & H3 & H4).
    repeat split; try assumption. apply H4. exact (Hmarks c d Hc Hd Hmn). }
  set (t := normalize_str ucd s) in *.
  unfold normalize_str at 1. unfold nfd, upper.
  rewrite (flat_map_singletons (decomposition ucd) t) by (intros u Hu; apply Hchars, Hu).
  rewrite canonical_order_starters by (intros u Hu; apply Hchars, Hu).
  rewrite filter_all
    by (intros u Hu; apply negb_true_iff; apply Hchars, Hu).
  apply flat_map_singletons. intros u Hu. apply Hchars, Hu.
Qed.

Ltac split_tests :=
  repeat match goal with
         | |- context [(?a =? ?b)%N] => destruct (N.eqb_spec a b); try lia
         | |- context [(?a <=? ?b)%N] => destruct (N.leb_spec a b); try lia
         end.

(** The excerpt gives the default row to every code point below U+00C0. *)
Lemma ucd_excerpt_low (c : codepoint) :
  (c < 0xC0)%N ->
  decomposition ucd_excerpt c = [c] /\ is_Mn ucd_excerpt c = false /\
  combining ucd_excerpt c = 0%N.
Proof.
  intro H. unfold ucd_excerpt, decomposition, is_Mn, combining, lookup,
    excerpt_decomposition, excerpt_combining, excerpt_Mn.
  cbn [find fst snd existsb]. repeat split; split_tests; reflexivity.
Qed.

Lemma ucd_excerpt_decomposed (c d : codepoint) :
  In d (decomposition ucd_excerpt c) -> decomposition ucd_excerpt d = [d].
Proof.
  unfold ucd_excerpt, decomposition, lookup, excerpt_decomposition.
  cbn [find fst snd]. intro H.
  repeat match goal with
         | H : context [(?a =? ?b)%N] |- _ => destruct (N.eqb_spec a b)
         end;
    cbn [fst snd In] in H;
    repeat match goal with
           | H : _ \/ _ |- _ => destruct H
           | H : False |- _ => destruct H
           end;
    subst; first [reflexivity | split_tests; first [reflexivity | congruence]].
Qed.

Lemma ucd_excerpt_stable : ucd_stable ucd_excerpt.
Proof.
  split; [exact ucd_excerpt_decomposed |].
  intros d u Hd Hmn Hu.
  change (to_upper ucd_excerpt d)
    with (if ((0x61 <=? d) && (d <=? 0x7A))%N then [(d - 0x20)%N] else [d]) in Hu.
  destruct ((0x61 <=? d) && (d <=? 0x7A))%N eqn:E.
  - destruct Hu as [<- | []].
    apply andb_true_iff in E. destruct E as [E1 E2].
    apply N.leb_le in E1. apply N.leb_le in E2.
    destruct (@ucd_excerpt_low (d - 0x20)%N) as (H1 & H2 & H3); [lia |].
    split; [exact H1 |]. split; [exact H2 |]. split; [| intros _; exact H3].
    change (to_upper ucd_excerpt (d - 0x20)%N)
      with (if ((0x61 <=? d - 0x20) && (d - 0x20 <=? 0x7A))%N
            then [(d - 0x20 - 0x20)%N] else [(d - 0x20)%N]).
    destruct (N.leb_spec 0x61 (d - 0x20)); [lia | reflexivity].
  - destruct Hu as [<- | []].
    split; [exact Hd |]. split; [exact Hmn |]. split; [| tauto].
    change (to_upper ucd_excerpt d)
      with (if ((0x61 <=? d) && (d <=? 0x7A))%N then [(d - 0x20)%N] else [d]).
    rewrite E. reflexivity.
Qed.

Lemma text_jose_marks : marks_are_nonspacing ucd_excerpt text_jose.
Proof.
  intros c d Hc Hd Hmn. simpl in Hc.
  repeat (destruct Hc as [<- | Hc];
          [vm_compute in Hd;
           repeat (destruct Hd as [<- | Hd]; [first [reflexivity | discriminate Hmn] |]);
           destruct Hd |]).
  destruct Hc.
Qed.

Lemma normalize_str_idempotent_witness :
  ucd_stable ucd_excerpt /\ marks_are_nonspacing ucd_excerpt text_jose /\
  normalize_str ucd_excerpt (normalize_str ucd_excerpt text_jose) =
    normalize_str ucd_excerpt text_jose.
Proof.
  split; [exact ucd_excerpt_stable |]. split; [exact text_jose_marks |].
  apply (@normalize_str_idempotent ucd_excerpt text_jose).
  - exact ucd_excerpt_stable.
  - exact text_jose_marks.
Defined.

(** C5 as stated fails.  U+302E and U+1D165 are spacing combining marks of
    classes 224 and 216, U+0941 is a nonspacing mark of class 0.  The first
    pass finds the text in canonical order, the two spacing marks being
    separated by a starter, and removes the nonspacing mark; the second
    pass then reorders the two marks left side by side. *)
Lemma normalize_str_idempotent_counterexample :
  normalize_str ucd_excerpt text_marks = [0x302E; 0x1D165]%N /\
  normalize_str ucd_excerpt (normalize_str ucd_excerpt text_marks) = [0x1D165; 0x302E]%N /\
  normalize_str ucd_excerpt (normalize_str ucd_excerpt text_marks) <>
    normalize_str ucd_excerpt text_marks.
Proof.
  split; [vm_compute; reflexivity |]. split; [vm_compute; reflexivity |].
  vm_compute. discriminate.
Qed.

End NormalizerClaims.

(* ================================================================== *)
(** ** Further properties of [compute_stats] *)

Section WindowFacts.
Import Zonal Views.
Local Open Scope Q_scope.

Lemma imap_nth_error {A B : Type} (f : Z -> A -> B) (l : list A) :
  forall (i : Z) (k : nat),
    nth_error (imap f i l) k = option_map (f (i + Z.of_nat k)%Z) (nth_error l k).
Proof.
  induction l as [| a l IH]; intros i k.
  - destruct k; reflexivity.
  - destruct k as [| k].
    + simpl. rewrite Z.add_0_r. reflexivity.
    + cbn [imap nth_error]. rewrite IH. f_equal. f_equal. lia.
Qed.

(** The cells of a masked window, with their position. *)
Lemma masked_window_cell (dt : dtype) (a : ndarray) (fill : sample) (g : footprint)
    (row : list (sample * bool)) (c : sample * bool) :
  In row (ma_cells (masked_window dt a fill g)) -> In c row ->
  exists (i j : nat) (mask_row : list bool) (inside : bool),
    nth_error (rv_array g) i = Some mask_row /\
    nth_error mask_row j = Some inside /\
    c = (read_cell a fill (row_off g + Z.of_nat i) (col_off g + Z.of_nat j),
         isnodata (read_cell a fill (row_off g + Z.of_nat i) (col_off g + Z.of_nat j)) fill
         || isnan (read_cell a fill (row_off g + Z.of_nat i) (col_off g + Z.of_nat j))
         || negb inside).
Proof.
  unfold masked_window. cbn [ma_cells]. intros Hrow Hc.
  apply In_nth_error in Hrow. destruct Hrow as [i Hi].
  rewrite imap_nth_error in Hi.
  destruct (nth_error (rv_array g) i) as [mask_row |] eqn:Ei; [| discriminate].
  simpl in Hi. inversion Hi; subst row. clear Hi.
  apply In_nth_error in Hc. destruct Hc as [j Hj].
  rewrite imap_nth_error in Hj.
  destruct (nth_error mask_row j) as [inside |] eqn:Ej; [| discriminate].
  simpl in Hj. inversion Hj; subst c.
  exists i, j, mask_row, inside. rewrite ?Z.add_0_l. auto.
Qed.

Lemma masked_window_has_cell (dt : dtype) (a : ndarray) (fill : sample) (g : footprint)
    (mask_row : list bool) :
  In mask_row (rv_array g) -> mask_row <> [] ->
  exists row c, In row (ma_cells (masked_window dt a fill g)) /\ In c row.
Proof.
  intros Hin Hne. apply In_nth_error in Hin. destruct Hin as [i Hi].
  destruct mask_row as [| inside mask_row]; [congruence |].
  pose proof (imap_nth_error
    (fun i0 row0 =>
       imap (fun j ins =>
               let v := read_cell a fill (row_off g + i0) (col_off g + j) in
               (v, isnodata v fill || isnan v || negb ins)) 0%Z row0)
    (rv_array g) 0%Z i) as H.
  rewrite Hi in H. simpl in H.
  eexists. eexists. split.
  - unfold masked_window. cbn [ma_cells]. eapply nth_error_In. exact H.
  - left. reflexivity.
Qed.

Lemma read_cell_outside (a : ndarray) (fill : sample) (g : footprint)
    (i j : nat) (mask_row : list bool) (inside : bool) :
  outside_extent a g ->
  nth_error (rv_array g) i = Some mask_row ->
  nth_error mask_row j = Some inside ->
  read_cell a fill (row_off g + Z.of_nat i) (col_off g + Z.of_nat j) = fill.
Proof.
  intros Hout Hi Hj.
  assert (Hilt : (i < length (rv_array g))%nat) by (apply nth_error_Some; congruence).
  assert (Hjlt : (j < length mask_row)%nat) by (apply nth_error_Some; congruence).
  assert (Hrow : In mask_row (rv_array g)) by (eapply nth_error_In; eauto).
  unfold read_cell.
  destruct ((row_off g + Z.of_nat i <? 0)%Z || (col_off g + Z.of_nat j <? 0)%Z) eqn:E;
    [reflexivity |].
  apply orb_false_iff in E. destruct E as [Er Ec].
  apply Z.ltb_ge in Er. apply Z.ltb_ge in Ec.
  destruct Hout as [H | [H | [H | H]]].
  - lia.
  - destruct (nth_error a (Z.to_nat (row_off g + Z.of_nat i))) as [r |] eqn:En;
      [| reflexivity].
    assert (Hlt : (Z.to_nat (row_off g + Z.of_nat i) < length a)%nat)
      by (apply nth_error_Some; congruence).
    lia.
  - specialize (H mask_row Hrow). lia.
  - destruct (nth_error a (Z.to_nat (row_off g + Z.of_nat i))) as [r |] eqn:En;
      [| reflexivity].
    assert (Hr : In r a) by (eapply nth_error_In; eauto).
    specialize (H r Hr).
    destruct (nth_error r (Z.to_nat (col_off g + Z.of_nat j))) as [v |] eqn:Ev;
      [| reflexivity].
    assert (Hlt : (Z.to_nat (col_off g + Z.of_nat j) < length r)%nat)
      by (apply nth_error_Some; congruence).
    lia.
Qed.

Lemma fill_is_masked (fill : sample) (inside : bool) :
  isnodata fill fill || isnan fill || negb inside = true.
Proof.
  destruct fill as [nd |]; simpl; [| reflexivity].
  rewrite (proj2 (Qeq_bool_iff nd nd) (Qeq_refl nd)). reflexivity.
Qed.

(** Outside the raster every cell of the window is the masked fill value. *)
Lemma masked_window_outside (dt : dtype) (a : ndarray) (fill : sample) (g : footprint)
    (row : list (sample * bool)) (c : sample * bool) :
  outside_extent a g ->
  In row (ma_cells (masked_window dt a fill g)) -> In c row -> c = (fill, true).
Proof.
  intros Hout Hrow Hc.
  destruct (masked_window_cell _ _ _ _ _ _ Hrow Hc) as (i & j & mr & ins & Hi & Hj & ->).
  rewrite (@read_cell_outside a fill g i j mr ins Hout Hi Hj), fill_is_masked. reflexivity.
Qed.

Lemma compressed_all_masked (x : MaskedArray) :
  (forall row c, In row (ma_cells x) -> In c row -> snd c = true) -> compressed x = [].
Proof.
  intro H. unfold compressed.
  induction (ma_cells x) as [| row cells IH]; [reflexivity |].
  simpl. rewrite IH by (intros r c Hr; apply H; right; exact Hr).
  rewrite app_nil_r.
  assert (Hrow : forall c, In c row -> snd c = true)
    by (intros c; apply H; left; reflexivity).
  clear IH H. induction row as [| c row IH]; [reflexivity |].
  simpl. rewrite (Hrow c (or_introl eq_refl)). simpl.
  apply IH. intros c' Hc'. apply Hrow. right. exact Hc'.
Qed.

Lemma data_In (x : MaskedArray) (v : sample) :
  In v (concat (np_array x)) <->
  exists row c, In row (ma_cells x) /\ In c row /\ fst c = v.
Proof.
  unfold np_array. rewrite in_concat. split.
  - intros (l & Hl & Hv). apply in_map_iff in Hl. destruct Hl as (row & <- & Hrow).
    apply in_map_iff in Hv. destruct Hv as (c & <- & Hc). eauto.
  - intros (row & c & Hrow & Hc & <-). exists (map fst row).
    split; apply in_map; assumption.
Qed.

End WindowFacts.


Section ZonalExtras.
Import Zonal Views Samples.
Local Open Scope Q_scope.

(** X1.  A feature whose pixel window lies outside the band has a record
    with count 0 and mean, min, max, std missing.  Its p10 and p90 are the
    nodata value itself when that value is a number and the window has a
    cell, and NaN when the nodata value is NaN. *)
Theorem compute_stats_outside_extent (gdf : list feature) (src : DatasetReader)
    (band : Z) (f : feature) :
  (1 <= band <= Z.of_nat (count_bands src))%Z ->
  In f gdf ->
  outside_extent (nth (Z.to_nat (band - 1)) (bands src) []) (geometry f) ->
  exists table r,
    compute_stats gdf src band = Ok table /\ In r table /\
    r = feature_stats (feature_window src f band) band /\
    TMIN_count r = 0%nat /\
    TMIN_mean r = NaN /\ TMIN_min r = NaN /\ TMIN_max r = NaN /\ TMIN_std r = StdNaN /\
    (effective_nodata (nodata src) = None -> TMIN_p10 r = NaN /\ TMIN_p90 r = NaN) /\
    (forall nd, effective_nodata (nodata src) = Some nd ->
       (exists mask_row, In mask_row (rv_array (geometry f)) /\ mask_row <> []) ->
       exists p10 p90,
         TMIN_p10 r = Num p10 /\ p10 == nd /\ TMIN_p90 r = Num p90 /\ p90 == nd).
Proof.
  intros Hband Hf Hout.
  assert (Hne : gdf <> []) by (intros ->; destruct Hf).
  exists (map (fun f0 => feature_stats (feature_window src f0 band) band) gdf),
    (feature_stats (feature_window src f band) band).
  split; [apply compute_stats_ok; [exact Hband | exact Hne] |].
  split; [apply in_map_iff; exists f; auto |]. split; [reflexivity |].
  set (x := feature_window src f band).
  assert (Hcells : forall row c, In row (ma_cells x) -> In c row ->
                     c = (effective_nodata (nodata src), true))
    by (intros row c; apply masked_window_outside, Hout).
  assert (Hcomp : compressed x = []).
  { apply compressed_all_masked. intros row c Hr Hc.
    rewrite (Hcells row c Hr Hc). reflexivity. }
  assert (Hcount : TMIN_count (feature_stats x band) = 0%nat)
    by (rewrite feature_stats_count, Hcomp; reflexivity).
  split; [exact Hcount |].
  destruct (feature_stats_empty x band Hcount) as (H1 & H2 & H3 & H4).
  repeat (split; [assumption |]).
  assert (Hdata : forall v, In v (concat (np_array x)) -> v = effective_nodata (nodata src)).
  { intros v Hv. apply data_In in Hv. destruct Hv as (row & c & Hr & Hc & <-).
    rewrite (Hcells row c Hr Hc). reflexivity. }
  assert (Hfields : TMIN_p10 (feature_stats x band) = lambda_p10 x /\
                    TMIN_p90 (feature_stats x band) = lambda_p90 x)
    by (unfold feature_stats; rewrite Hcomp; split; reflexivity).
  destruct Hfields as [-> ->]. split.
  - intro Hnan.
    assert (Hd : Numpy.dropna (concat (np_array x)) = []).
    { destruct (Numpy.dropna (concat (np_array x))) as [| q qs] eqn:E; [reflexivity |].
      assert (Hq : In q (Numpy.dropna (concat (np_array x)))) by (rewrite E; left; reflexivity).
      apply dropna_In in Hq. apply Hdata in Hq. congruence. }
    unfold lambda_p10, lambda_p90, np_nanpercentile, nanpercentile. rewrite Hd.
    destruct (0 <? len x)%nat; split; reflexivity.
  - intros nd Hnd (mask_row & Hrow & Hmask).
    destruct (masked_window_has_cell (band_dtype src)
                (nth (Z.to_nat (band - 1)) (bands src) [])
                (effective_nodata (nodata src)) (geometry f) Hrow Hmask)
      as (row & c & Hr & Hc).
    fold (feature_window src f band) in Hr. fold x in Hr.
    assert (Hlen : (0 <? len x)%nat = true).
    { apply Nat.ltb_lt. unfold len. destruct (ma_cells x); [destruct Hr | simpl; lia]. }
    assert (Hin : In nd (Numpy.dropna (concat (np_array x)))).
    { apply dropna_In, data_In. exists row, c. repeat split; try assumption.
      rewrite (Hcells row c Hr Hc). exact Hnd. }
    destruct (Numpy.dropna (concat (np_array x))) as [| w ws] eqn:Ed; [destruct Hin |].
    assert (Hall : forall q, In q (w :: ws) -> q == nd).
    { intros q Hq. rewrite <- Ed in Hq. apply dropna_In in Hq. apply Hdata in Hq.
      rewrite Hnd in Hq. inversion Hq. reflexivity. }
    destruct percent_fractions as (F0 & F1 & F2).
    exists (percentile (ma_dtype x) (w :: ws) (10 / 100)),
      (percentile (ma_dtype x) (w :: ws) (90 / 100)).
    unfold lambda_p10, lambda_p90, np_nanpercentile, nanpercentile.
    rewrite Hlen, Ed. simpl.
    split; [reflexivity |].
    split; [apply percentile_constant; [discriminate | lra | exact Hall] |].
    split; [reflexivity |].
    apply percentile_constant; [discriminate | lra | exact Hall].
Qed.

Lemma compute_stats_outside_extent_witness :
  exists table r,
    compute_stats [district_A; district_B] src5 1 = Ok table /\ In r table /\
    r = feature_stats (feature_window src5 district_B 1) 1 /\
    TMIN_count r = 0%nat /\
    TMIN_mean r = NaN /\ TMIN_min r = NaN /\ TMIN_max r = NaN /\ TMIN_std r = StdNaN /\
    (effective_nodata (nodata src5) = None -> TMIN_p10 r = NaN /\ TMIN_p90 r = NaN) /\
    (forall nd, effective_nodata (nodata src5) = Some nd ->
       (exists mask_row, In mask_row (rv_array (geometry district_B)) /\ mask_row <> []) ->
       exists p10 p90,
         TMIN_p10 r = Num p10 /\ p10 == nd /\ TMIN_p90 r = Num p90 /\ p90 == nd).
Proof.
  apply (@compute_stats_outside_extent [district_A; district_B] src5 1 district_B).
  - unfold count_bands. simpl. lia.
  - right. left. reflexivity.
  - right. left. simpl. lia.
Defined.

End ZonalExtras.

Section ZonalInvariants.
Import Zonal Views Samples.
Local Open Scope Q_scope.

Lemma constant_window_unmasked (x : MaskedArray) (v : Q) :
  constant_window x v -> all_unmasked x = true.
Proof.
  intro H. unfold all_unmasked. apply forallb_forall. intros row Hrow.
  apply forallb_forall. intros c Hc.
  destruct (H row c Hrow Hc) as [Hm _]. rewrite Hm. reflexivity.
Qed.

Lemma constant_window_data (x : MaskedArray) (v : Q) :
  constant_window x v ->
  window_data x = compressed x /\
  length (compressed x) = length (concat (ma_cells x)) /\
  forall q, In q (compressed x) -> q == v.
Proof.
  intro H.
  assert (Hsame : window_data x = compressed x).
  { apply all_unmasked_data; [| eapply constant_window_unmasked; eauto].
    intros row c Hr Hc _. destruct (H row c Hr Hc) as (_ & q & Hq & _). eauto. }
  split; [exact Hsame |]. split.
  - clear Hsame. unfold compressed. unfold constant_window in H.
    induction (ma_cells x) as [| row cells IH]; [reflexivity |].
    simpl. rewrite !length_app.
    rewrite IH by (intros r c Hr; apply H; right; exact Hr). f_equal.
    assert (Hrow : forall c, In c row -> snd c = false /\ exists q, fst c = Some q /\ q == v)
      by (intros c; apply H; left; reflexivity).
    clear IH H. induction row as [| [s m] row IH]; [reflexivity |].
    destruct (Hrow (s, m) (or_introl eq_refl)) as (Hm & q & Hq & _).
    simpl in Hm, Hq. subst s m. simpl. f_equal.
    apply IH. intros c Hc. apply Hrow. right. exact Hc.
  - intros q Hq. rewrite <- Hsame in Hq. unfold window_data in Hq.
    apply dropna_In, data_In in Hq.
    destruct Hq as (row & c & Hr & Hc & Hfst).
    destruct (H row c Hr Hc) as (_ & q' & Hq' & Hv). congruence.
Qed.

(** X2.  When every cell of a feature's window is valid and holds the same
    value, the record counts every cell, its min, max, p10 and p90 are that
    value, and its range is zero, whatever the number type of the raster. *)
Theorem compute_stats_constant_zone (gdf : list feature) (src : DatasetReader)
    (band : Z) (f : feature) (v : Q) :
  (1 <= band <= Z.of_nat (count_bands src))%Z ->
  In f gdf ->
  constant_window (feature_window src f band) v ->
  concat (ma_cells (feature_window src f band)) <> [] ->
  exists table r mn mx lo hi rg,
    compute_stats gdf src band = Ok table /\ In r table /\
    r = feature_stats (feature_window src f band) band /\
    TMIN_count r = length (concat (ma_cells (feature_window src f band))) /\
    TMIN_min r = Num mn /\ mn == v /\
    TMIN_max r = Num mx /\ mx == v /\
    TMIN_p10 r = Num lo /\ lo == v /\
    TMIN_p90 r = Num hi /\ hi == v /\
    TMIN_range r = Num rg /\ rg == 0.
Proof.
  intros Hband Hf Hconst Hcells.
  assert (Hne : gdf <> []) by (intros ->; destruct Hf).
  set (x := feature_window src f band) in *.
  destruct (constant_window_data Hconst) as (Hsame & Hlen & Hall).
  assert (Hcount : (0 < TMIN_count (feature_stats x band))%nat).
  { rewrite feature_stats_count, Hlen.
    destruct (concat (ma_cells x)); [congruence | simpl; lia]. }
  destruct (feature_stats_valid x band Hcount)
    as (v0 & vs & w & ws & Ec & Ed & Hmin & Hmax & _ & _ & Hrange & Hp10 & Hp90).
  assert (Hws : w :: ws = v0 :: vs) by (rewrite <- Ed, <- Ec; exact Hsame).
  rewrite Hws in Hp10, Hp90.
  assert (Hb : forall q, In q (v0 :: vs) -> q == v).
  { intros q Hq. rewrite <- Ec in Hq. apply Hall, Hq. }
  destruct percent_fractions as (F0 & F1 & F2).
  pose proof (Hb _ (minimum_In v0 vs)) as Bmin.
  pose proof (Hb _ (maximum_In v0 vs)) as Bmax.
  exists (map (fun f0 => feature_stats (feature_window src f0 band) band) gdf),
    (feature_stats x band),
    (Numpy.minimum v0 vs), (Numpy.maximum v0 vs),
    (percentile (ma_dtype x) (v0 :: vs) (10 / 100)),
    (percentile (ma_dtype x) (v0 :: vs) (90 / 100)),
    (subtract (ma_dtype x) (Numpy.maximum v0 vs) (Numpy.minimum v0 vs)).
  split; [apply compute_stats_ok; [exact Hband | exact Hne] |].
  split; [apply in_map_iff; exists f; auto |]. split; [reflexivity |].
  split; [rewrite feature_stats_count; exact Hlen |].
  split; [exact Hmin |]. split; [exact Bmin |].
  split; [exact Hmax |]. split; [exact Bmax |].
  split; [exact Hp10 |].
  split; [apply percentile_constant; [discriminate | lra | exact Hb] |].
  split; [exact Hp90 |].
  split; [apply percentile_constant; [discriminate | lra | exact Hb] |].
  split; [exact Hrange |].
  apply subtract_eq. rewrite Bmin, Bmax. reflexivity.
Qed.

Lemma compute_stats_constant_zone_witness :
  exists table r mn mx lo hi rg,
    compute_stats [district_A; district_B] src5 1 = Ok table /\ In r table /\
    r = feature_stats (feature_window src5 district_A 1) 1 /\
    TMIN_count r = length (concat (ma_cells (feature_window src5 district_A 1))) /\
    TMIN_min r = Num mn /\ mn == 5 /\
    TMIN_max r = Num mx /\ mx == 5 /\
    TMIN_p10 r = Num lo /\ lo == 5 /\
    TMIN_p90 r = Num hi /\ hi == 5 /\
    TMIN_range r = Num rg /\ rg == 0.
Proof.
  apply (@compute_stats_constant_zone [district_A; district_B] src5 1 district_A 5).
  - unfold count_bands. simpl. lia.
  - left. reflexivity.
  - intros row c Hrow Hc. vm_compute in Hrow.
    repeat (destruct Hrow as [<- | Hrow];
            [repeat (destruct Hc as [<- | Hc];
                     [split; [reflexivity | exists 5; split; reflexivity] |]);
             destruct Hc |]).
    destruct Hrow.
  - vm_compute. discriminate.
Defined.

(** A difference taken in a signed integer type of [bits] bits: it is exact
    below [2 ^ (bits - 1)] and falls short by [2 ^ bits] from there on. *)
Lemma Qfloor_unique (x : Q) (z : Z) :
  inject_Z z <= x -> x < inject_Z (z + 1) -> Qfloor x = z.
Proof.
  intros Hlo Hhi.
  pose proof (Qfloor_le x) as H1. pose proof (Qlt_floor x) as H2.
  assert (Ha : (Qfloor x < z + 1)%Z).
  { rewrite Zlt_Qlt. eapply Qle_lt_trans; [exact H1 | exact Hhi]. }
  assert (Hb : (z < Qfloor x + 1)%Z).
  { rewrite Zlt_Qlt. eapply Qle_lt_trans; [exact Hlo | exact H2]. }
  lia.
Qed.

Lemma wrap_around_signed (bits : positive) (q : Q) :
  0 <= q -> q < inject_Z (2 ^ Z.pos bits) ->
  wrap_around true bits q ==
    if Qle_bool (inject_Z (2 ^ Z.pos bits) / 2) q
    then q - inject_Z (2 ^ Z.pos bits) else q.
Proof.
  intros H0 Hm. unfold wrap_around.
  assert (Hpos : 0 < inject_Z (2 ^ Z.pos bits)).
  { change 0 with (inject_Z 0). rewrite <- Zlt_Qlt. apply Z.pow_pos_nonneg; lia. }
  set (m := inject_Z (2 ^ Z.pos bits)) in *. clearbody m.
  assert (Hdiv : (q + m / 2) / m == q / m + (1 # 2)) by (field; lra).
  assert (Hq0 : 0 <= q / m) by (apply Qle_shift_div_l; lra).
  assert (Hq1 : q / m < 1) by (apply Qlt_shift_div_r; lra).
  destruct (Qle_bool (m / 2) q) eqn:E.
  - apply Qle_bool_iff in E.
    assert (Hh : 1 # 2 <= q / m).
    { apply Qle_shift_div_l; [lra |]. setoid_replace ((1 # 2) * m) with (m / 2) by field.
      exact E. }
    rewrite (@Qfloor_unique ((q + m / 2) / m) 1).
    + change (inject_Z 1) with 1. ring.
    + rewrite Hdiv. change (inject_Z 1) with 1. lra.
    + rewrite Hdiv. change (inject_Z (1 + 1)) with 2. lra.
  - assert (Hlt : q < m / 2).
    { apply Qnot_le_lt. intro H. apply Qle_bool_iff in H. congruence. }
    assert (Hh : q / m < 1 # 2).
    { apply Qlt_shift_div_r; [lra |]. setoid_replace ((1 # 2) * m) with (m / 2) by field.
      exact Hlt. }
    rewrite (@Qfloor_unique ((q + m / 2) / m) 0).
    + change (inject_Z 0) with 0. ring.
    + rewrite Hdiv. change (inject_Z 0) with 0. lra.
    + rewrite Hdiv. change (inject_Z (0 + 1)) with 1. lra.
Qed.

(** X3.  On a raster of signed integers of [bits] bits, the range of a
    record with a minimum [lo] and a maximum [hi] is the difference taken in
    that type: [hi - lo] when it is below [2 ^ (bits - 1)], and
    [hi - lo - 2 ^ bits], a negative number, otherwise. *)
Theorem compute_stats_range_wraps (gdf : list feature) (src : DatasetReader) (band : Z)
    (table : list stats_row) (r : stats_row) (bits : positive)
    (mean var : list Q -> Q) (lo hi : Q) :
  band_dtype src = integer_type true bits mean var ->
  compute_stats gdf src band = Ok table ->
  In r table ->
  TMIN_min r = Num lo -> TMIN_max r = Num hi ->
  hi - lo < inject_Z (2 ^ Z.pos bits) ->
  lo <= hi /\
  exists rg,
    TMIN_range r = Num rg /\
    rg == (if Qle_bool (inject_Z (2 ^ Z.pos bits) / 2) (hi - lo)
           then hi - lo - inject_Z (2 ^ Z.pos bits) else hi - lo) /\
    (inject_Z (2 ^ Z.pos bits) / 2 <= hi - lo -> rg < 0).
Proof.
  intros Hdt Hrun Hin Hlo Hhi Hfit.
  destruct (compute_stats_inv _ _ _ Hrun) as (Hband & Hne & ->).
  apply in_map_iff in Hin. destruct Hin as (f & <- & Hf).
  set (x := feature_window src f band) in *.
  assert (Hcount : (0 < TMIN_count (feature_stats x band))%nat).
  { destruct (TMIN_count (feature_stats x band)) eqn:E; [| lia].
    destruct (feature_stats_empty x band E) as (_ & H & _). congruence. }
  destruct (feature_stats_valid _ _ Hcount)
    as (v & vs & w & ws & Ec & _ & Hmin & Hmax & _ & _ & Hrange & _).
  rewrite Hmin in Hlo. rewrite Hmax in Hhi.
  inversion Hlo; subst lo. inversion Hhi; subst hi.
  assert (Hle : Numpy.minimum v vs <= Numpy.maximum v vs).
  { eapply Qle_trans; [apply minimum_le | apply maximum_ge]; left; reflexivity. }
  split; [exact Hle |].
  assert (Hx : ma_dtype x = integer_type true bits mean var) by exact Hdt.
  rewrite Hx in Hrange. cbn [subtract integer_type] in Hrange.
  eexists. split; [exact Hrange |].
  assert (Hw := @wrap_around_signed bits (Numpy.maximum v vs - Numpy.minimum v vs)).
  split; [apply Hw; lra |].
  intro Hbig. rewrite Hw by lra.
  apply Qle_bool_iff in Hbig. rewrite Hbig. lra.
Qed.

Lemma compute_stats_range_wraps_witness :
  let r := feature_stats (feature_window src_int16 district_E 1) 1 in
  -30000 <= 30000 /\
  exists rg,
    TMIN_range r = Num rg /\
    rg == (if Qle_bool (inject_Z (2 ^ 16) / 2) (30000 - -30000)
           then 30000 - -30000 - inject_Z (2 ^ 16) else 30000 - -30000) /\
    (inject_Z (2 ^ 16) / 2 <= 30000 - -30000 -> rg < 0).
Proof.
  intro r.
  apply (@compute_stats_range_wraps [district_E] src_int16 1 [r] r 16
           Numpy.mean Numpy.var (-30000) 30000).
  - reflexivity.
  - reflexivity.
  - left. reflexivity.
  - reflexivity.
  - reflexivity.
  - apply Qlt_alt. reflexivity.
Defined.



(** X5.  The band loop in closed form.  Without any band, or without any
    feature in the layer, it ends in ValueError; otherwise the table holds,
    band after band, every feature with its record on that band. *)
Theorem result_table_form (gdf : list feature) (src : DatasetReader) :
  result_table gdf src =
    match count_bands src, gdf with
    | O, _ => Raise ValueError
    | _, [] => Raise ValueError
    | S _, _ :: _ =>
        Ok (flat_map (fun b => map (fun f => (f, feature_stats (feature_window src f b) b))
                                   gdf) (band_range src))
    end.
Proof.
  destruct (count_bands src) as [| n] eqn:En.
  - apply result_table_refused. right. exact En.
  - destruct gdf as [| f gdf].
    + apply result_table_refused. left. reflexivity.
    + apply result_table_closed_form; [lia | discriminate].
Qed.

End ZonalInvariants.

(* ================================================================== *)
(** ** The latest-year slice and the rankings *)

Section ViewFacts.
Import Zonal Views.
Local Open Scope Q_scope.

Lemma series_max_spec (col : list Z) (m : Z) :
  series_max col = Some m -> In m col /\ forall y, In y col -> (y <= m)%Z.
Proof.
  destruct col as [| y col]; [discriminate |]. simpl. intro H. inversion H; subst m. clear H.
  induction col as [| z col IH]; simpl.
  - split; [left; reflexivity |]. intros y' [<- | []]. lia.
  - destruct IH as [Hin Hub]. split.
    + destruct (Z.max_spec z (fold_right Z.max y col)) as [[_ ->] | [_ ->]].
      * destruct Hin as [Hin | Hin]; [left; exact Hin | right; right; exact Hin].
      * right. left. reflexivity.
    + intros y' [<- | [<- | Hy']].
      * specialize (Hub y (or_introl eq_refl)). lia.
      * lia.
      * specialize (Hub y' (or_intror Hy')). lia.
Qed.

Lemma filter_none {A : Type} (f : A -> bool) (l : list A) :
  (forall x, In x l -> f x = false) -> filter f l = [].
Proof.
  induction l as [| a l IH]; intro H; [reflexivity |].
  simpl. rewrite (H a (or_introl eq_refl)). apply IH.
  intros x Hx. apply H. right. exact Hx.
Qed.

(** Selecting one year in the band-by-band table gives the rows of one
    band. *)
Lemma filter_one_band (st : Z -> feature -> stats_row) (gdf : list feature)
    (bs : list Z) (n : Z) :
  (forall b f, TMIN_YEAR (st b f) = (2019 + b)%Z) ->
  NoDup bs ->
  filter (year_is (Some (2019 + n)%Z))
         (flat_map (fun b => map (fun f => (f, st b f)) gdf) bs) =
  if existsb (Z.eqb n) bs then map (fun f => (f, st n f)) gdf else [].
Proof.
  intros Hyear Hnd. induction Hnd as [| b bs Hnotin Hnd IH]; [reflexivity |].
  cbn [flat_map existsb]. rewrite filter_app.
  etransitivity; [apply f_equal; exact IH |].
  destruct (Z.eqb_spec n b) as [-> | Hne]; cbn [orb].
  - rewrite filter_all.
    2:{ intros r Hr. apply in_map_iff in Hr. destruct Hr as (f & <- & _).
        cbn [year_is snd]. rewrite Hyear. apply Z.eqb_refl. }
    assert (Hex : existsb (Z.eqb b) bs = false).
    { destruct (existsb (Z.eqb b) bs) eqn:E; [| reflexivity].
      apply existsb_exists in E. destruct E as (z & Hz & Heq).
      apply Z.eqb_eq in Heq. subst z. contradiction. }
    rewrite Hex. apply app_nil_r.
  - rewrite filter_none; [reflexivity |].
    intros r Hr. apply in_map_iff in Hr. destruct Hr as (f & <- & _).
    cbn [year_is snd]. rewrite Hyear. apply Z.eqb_neq. lia.
Qed.

(** X6.  For a layer with at least one feature and a raster with N >= 1
    bands, every row of the result has year 2019 + band, the latest year is
    2019 + N, and the latest-year slice is the layer, in its order, each
    feature with its record on the last band. *)
Theorem gdf_latest_is_last_band (gdf : list feature) (src : DatasetReader) :
  (0 < count_bands src)%nat ->
  gdf <> [] ->
  exists result,
    result_table gdf src = Ok result /\
    (forall r, In r result -> TMIN_YEAR (snd r) = (2019 + TMIN_BAND (snd r))%Z) /\
    latest_year result = Some (2019 + Z.of_nat (count_bands src))%Z /\
    gdf_latest result =
      map (fun f => (f, feature_stats (feature_window src f (Z.of_nat (count_bands src)))
                                      (Z.of_nat (count_bands src)))) gdf /\
    length (gdf_latest result) = length gdf.
Proof.
  intros Hn Hne.
  set (n := Z.of_nat (count_bands src)).
  set (st := fun (b : Z) (f : feature) => feature_stats (feature_window src f b) b).
  set (result := flat_map (fun b => map (fun f => (f, st b f)) gdf) (band_range src)).
  assert (Hyear : forall b f, TMIN_YEAR (st b f) = (2019 + b)%Z)
    by (intros b f; apply feature_stats_band).
  assert (Hrows : forall r, In r result ->
            exists b, In b (band_range src) /\ TMIN_YEAR (snd r) = (2019 + b)%Z /\
                      TMIN_BAND (snd r) = b).
  { intros r Hr. apply in_flat_map in Hr. destruct Hr as (b & Hb & Hr).
    apply in_map_iff in Hr. destruct Hr as (f & <- & _).
    exists b. split; [exact Hb |]. simpl. split; apply feature_stats_band. }
  assert (Hlast : In n (band_range src)) by (apply band_range_spec; unfold n; lia).
  assert (Hlatest : latest_year result = Some (2019 + n)%Z).
  { unfold latest_year.
    destruct (series_max (map (fun r => TMIN_YEAR (snd r)) result)) as [m |] eqn:E.
    - apply series_max_spec in E. destruct E as [Hin Hub].
      apply in_map_iff in Hin. destruct Hin as (r & Hm & Hr).
      destruct (Hrows r Hr) as (b & Hb & Hy & _).
      apply band_range_spec in Hb.
      destruct gdf as [| f0 gdf']; [congruence |].
      assert (Htop : In (2019 + n)%Z (map (fun r => TMIN_YEAR (snd r)) result)).
      { apply in_map_iff. exists (f0, st n f0). split; [simpl; apply Hyear |].
        apply in_flat_map. exists n. split; [exact Hlast | left; reflexivity]. }
      specialize (Hub _ Htop). f_equal. fold n in Hb. lia.
    - exfalso. destruct gdf as [| f0 gdf']; [congruence |].
      assert (Hin : In (f0, st n f0) result).
      { apply in_flat_map. exists n. split; [exact Hlast | left; reflexivity]. }
      destruct result; [destruct Hin | discriminate]. }
  assert (Hslice : gdf_latest result = map (fun f => (f, st n f)) gdf).
  { unfold gdf_latest. rewrite Hlatest. unfold result.
    rewrite (filter_one_band st gdf n Hyear (band_range_NoDup src)).
    assert (Hex : existsb (Z.eqb n) (band_range src) = true).
    { apply existsb_exists. exists n. split; [exact Hlast | apply Z.eqb_refl]. }
    rewrite Hex. reflexivity. }
  exists result. split; [apply result_table_closed_form; [exact Hn | exact Hne] |].
  split.
  { intros r Hr. destruct (Hrows r Hr) as (b & _ & Hy & Hb). rewrite Hy, Hb. reflexivity. }
  split; [exact Hlatest |]. split; [exact Hslice |].
  rewrite Hslice. apply length_map.
Qed.

Lemma gdf_latest_is_last_band_witness :
  exists result,
    result_table [Samples.district_A; Samples.district_B] Samples.src5 = Ok result /\
    (forall r, In r result -> TMIN_YEAR (snd r) = (2019 + TMIN_BAND (snd r))%Z) /\
    latest_year result = Some (2019 + Z.of_nat (count_bands Samples.src5))%Z /\
    gdf_latest result =
      map (fun f => (f, feature_stats
                          (feature_window Samples.src5 f (Z.of_nat (count_bands Samples.src5)))
                          (Z.of_nat (count_bands Samples.src5))))
          [Samples.district_A; Samples.district_B] /\
    length (gdf_latest result) = length [Samples.district_A; Samples.district_B].
Proof.
  apply (@gdf_latest_is_last_band [Samples.district_A; Samples.district_B] Samples.src5).
  - unfold count_bands. simpl. lia.
  - discriminate.
Defined.

Lemma mean_leb_colder (a b : result_row) : mean_leb a b = true <-> colder a b.
Proof.
  unfold mean_leb, colder.
  destruct (TMIN_mean (snd a)), (TMIN_mean (snd b));
    try apply Qle_bool_iff; intuition discriminate.
Qed.

Lemma mean_geb_hotter (a b : result_row) : mean_geb a b = true <-> hotter a b.
Proof.
  unfold mean_geb, hotter.
  destruct (TMIN_mean (snd a)), (TMIN_mean (snd b));
    try apply Qle_bool_iff; intuition discriminate.
Qed.

Lemma colder_trans (a b c : result_row) : colder a b -> colder b c -> colder a c.
Proof.
  unfold colder.
  destruct (TMIN_mean (snd a)), (TMIN_mean (snd b)), (TMIN_mean (snd c));
    try tauto; apply Qle_trans.
Qed.

Lemma hotter_trans (a b c : result_row) : hotter a b -> hotter b c -> hotter a c.
Proof.
  unfold hotter.
  destruct (TMIN_mean (snd a)), (TMIN_mean (snd b)), (TMIN_mean (snd c));
    try tauto; intros H1 H2; eapply Qle_trans; eauto.
Qed.

Lemma StronglySorted_impl {A : Type} (R S : A -> A -> Prop) (l : list A) :
  (forall a b, R a b -> S a b) -> StronglySorted R l -> StronglySorted S l.
Proof.
  intros H. induction 1 as [| a l Hl IH Ha]; constructor; [exact IH |].
  eapply Forall_impl; [| exact Ha]. intros b. apply H.
Qed.

Lemma StronglySorted_app_inv {A : Type} (R : A -> A -> Prop) (l1 l2 : list A) :
  StronglySorted R (l1 ++ l2) ->
  StronglySorted R l1 /\ forall a b, In a l1 -> In b l2 -> R a b.
Proof.
  induction l1 as [| x l1 IH]; simpl; intro H.
  - split; [constructor | intros a b []].
  - inversion H as [| y l Hl Hx]; subst. destruct (IH Hl) as [Hs Hc]. split.
    + constructor; [exact Hs |]. rewrite Forall_forall in *.
      intros z Hz. apply Hx. apply in_or_app. left. exact Hz.
    + intros a b [<- | Ha] Hb.
      * rewrite Forall_forall in Hx. apply Hx. apply in_or_app. right. exact Hb.
      * apply Hc; assumption.
Qed.

Lemma gdf_latest_In (result : list result_row) (r : result_row) :
  In r (gdf_latest result) <->
  In r result /\ latest_year result = Some (TMIN_YEAR (snd r)).
Proof.
  unfold gdf_latest. rewrite filter_In. unfold year_is.
  destruct (latest_year result) as [y |].
  - rewrite Z.eqb_eq. intuition congruence.
  - intuition discriminate.
Qed.

(** X7.  The cold ranking holds the 15 rows of the latest-year slice with
    the lowest means (all of them when the slice has fewer), in ascending
    order of mean, a row without mean after every row with one: no row left
    out comes before a ranked row. *)
Theorem ranking_coldest (result : list result_row) :
  length (ranking result) = Nat.min 15 (length (gdf_latest result)) /\
  StronglySorted colder (ranking result) /\
  (exists rest,
     Permutation (gdf_latest result) (ranking result ++ rest) /\
     forall a b, In a (ranking result) -> In b rest -> colder a b) /\
  (forall r, In r (ranking result) ->
     In r result /\ latest_year result = Some (TMIN_YEAR (snd r))).
Proof.
  unfold ranking. set (slice := gdf_latest result).
  assert (Hsorted : StronglySorted colder (AscendingSort.sort slice)).
  { apply StronglySorted_impl with (R := fun a b => is_true (AscendingMean.leb a b)).
    - intros a b. apply mean_leb_colder.
    - apply AscendingSort.StronglySorted_sort.
      intros a b c Hab Hbc. apply mean_leb_colder.
      eapply colder_trans; apply mean_leb_colder; eassumption. }
  pose proof (AscendingSort.Permuted_sort slice) as Hperm.
  rewrite <- (firstn_skipn 15 (AscendingSort.sort slice)) in Hsorted, Hperm.
  apply StronglySorted_app_inv in Hsorted. destruct Hsorted as [Hs Hc].
  split.
  { rewrite length_firstn. f_equal. symmetry. apply Permutation_length.
    apply AscendingSort.Permuted_sort. }
  split; [exact Hs |]. split.
  - exists (skipn 15 (AscendingSort.sort slice)). split; [exact Hperm | exact Hc].
  - intros r Hr. apply gdf_latest_In. fold slice.
    eapply Permutation_in; [apply Permutation_sym, Hperm |].
    apply in_or_app. left. exact Hr.
Qed.

(** X8.  The hot ranking holds the 15 rows of the latest-year slice with
    the highest means (all of them when the slice has fewer), in descending
    order of mean, a row without mean still after every row with one. *)
Theorem ranking_hottest (result : list result_row) :
  length (ranking_hot result) = Nat.min 15 (length (gdf_latest result)) /\
  StronglySorted hotter (ranking_hot result) /\
  (exists rest,
     Permutation (gdf_latest result) (ranking_hot result ++ rest) /\
     forall a b, In a (ranking_hot result) -> In b rest -> hotter a b) /\
  (forall r, In r (ranking_hot result) ->
     In r result /\ latest_year result = Some (TMIN_YEAR (snd r))).
Proof.
  unfold ranking_hot. set (slice := gdf_latest result).
  assert (Hsorted : StronglySorted hotter (DescendingSort.sort slice)).
  { apply StronglySorted_impl with (R := fun a b => is_true (DescendingMean.leb a b)).
    - intros a b. apply mean_geb_hotter.
    - apply DescendingSort.StronglySorted_sort.
      intros a b c Hab Hbc. apply mean_geb_hotter.
      eapply hotter_trans; apply mean_geb_hotter; eassumption. }
  pose proof (DescendingSort.Permuted_sort slice) as Hperm.
  rewrite <- (firstn_skipn 15 (DescendingSort.sort slice)) in Hsorted, Hperm.
  apply StronglySorted_app_inv in Hsorted. destruct Hsorted as [Hs Hc].
  split.
  { rewrite length_firstn. f_equal. symmetry. apply Permutation_length.
    apply DescendingSort.Permuted_sort. }
  split; [exact Hs |]. split.
  - exists (skipn 15 (DescendingSort.sort slice)). split; [exact Hperm | exact Hc].
  - intros r Hr. apply gdf_latest_In. fold slice.
    eapply Permutation_in; [apply Permutation_sym, Hperm |].
    apply in_or_app. left. exact Hr.
Qed.

End ViewFacts.

(* ================================================================== *)
(** ** The cohort aggregates *)

Section AggregateFacts.
Import Targeting Aggregates.
Local Open Scope Q_scope.

Lemma tenth_in_range : 0 <= 1 # 10 <= 1.
Proof. split; apply Qle_bool_iff; reflexivity. Qed.

Lemma unique_spec (l : list string) :
  NoDup (unique l) /\ forall x, In x (unique l) <-> In x l.
Proof.
  induction l as [| a l [IHn IHi]]; simpl.
  - split; [constructor | tauto].
  - split.
    + constructor.
      * rewrite filter_In. intros [_ H]. rewrite String.eqb_refl in H. discriminate.
      * apply NoDup_filter. exact IHn.
    + intro x. rewrite filter_In, IHi. split.
      * intros [<- | [H _]]; auto.
      * intros [<- | H]; [left; reflexivity |].
        destruct (String.eqb_spec a x) as [-> | Hne]; [left; reflexivity |].
        right. split; [exact H | reflexivity].
Qed.

(** The entries of a cohort at the 10th percentile: each holds a number at
    or below the threshold, the mean of a selected row of its district. *)
Lemma cohort_entries (t : list row) :
  exists thr,
    threshold (1 # 10) t = Ok thr /\
    cohort (1 # 10) t = Ok (groupby_min (select t thr)) /\
    groups_of (groupby_min (select t thr)) (select t thr) /\
    forall k v, In (k, v) (groupby_min (select t thr)) ->
      exists m x, v = Some m /\ thr = Some x /\ m <= x.
Proof.
  destruct (cohort_unfold t tenth_in_range) as (H1 & _ & H3).
  exists (Numpy.nanpercentile (map TMIN_mean t) (1 # 10)).
  split; [exact H1 |]. split; [exact H3 |].
  assert (Hg : groups_of
            (groupby_min (select t (Numpy.nanpercentile (map TMIN_mean t) (1 # 10))))
            (select t (Numpy.nanpercentile (map TMIN_mean t) (1 # 10)))).
  { apply groupby_min_groups_of. intros r Hr. eapply select_numbers, Hr. }
  split; [exact Hg |].
  intros k v Hin. destruct Hg as (_ & _ & Hvals).
  destruct (Hvals k v Hin) as (m & -> & (r0 & Hr0 & _ & Hm0) & _).
  apply select_In in Hr0. destruct Hr0 as (_ & m' & x & Hm' & Hx & Hle).
  exists m, x. repeat split; [exact Hx |]. congruence.
Qed.






(** X11.  The department lists.  [departamentos] has no repetition and
    holds exactly the departments of the rows that have a complete district
    key and a mean at or below the global threshold.  On a table whose
    department column holds text, [departamentos_amaz] has no repetition and
    holds only departments whose upper-cased name is one of the three
    Amazonian departments; on any other table it raises AttributeError. *)
Theorem departamentos_members (upper : string -> string) (t_min_stats : list row) :
  (exists deps,
     departamentos t_min_stats = Ok deps /\
     NoDup deps /\
     (forall d, In d deps <->
        exists r k m x,
          In r t_min_stats /\ DEPARTAMEN r = Some d /\ row_key r = Some k /\
          TMIN_mean r = Some m /\ global_p10 t_min_stats = Ok (Some x) /\ m <= x)) /\
  (if text_column t_min_stats
   then exists deps_amaz,
          departamentos_amaz upper t_min_stats = Ok deps_amaz /\
          NoDup deps_amaz /\
          (forall d, In d deps_amaz -> In (upper d) amazon_depts)
   else departamentos_amaz upper t_min_stats = Raise AttributeError).
Proof.
  assert (Hdep : forall (r : row) k, row_key r = Some k ->
            DEPARTAMEN r = Some (let '(_, d, _, _) := k in d)).
  { intros r k Hk. unfold row_key in Hk.
    destruct (UBIGEO r), (DEPARTAMEN r), (PROVINCIA r), (DISTRITO r); try discriminate.
    inversion Hk. reflexivity. }
  split.
  - destruct (cohort_entries t_min_stats) as (thr & H1 & H2 & Hg & _).
    set (tu := groupby_min (select t_min_stats thr)) in *.
    exists (unique (map department tu)).
    split; [unfold departamentos, target_unique; rewrite H2; reflexivity |].
    split; [apply unique_spec |].
    intro d. rewrite (proj2 (unique_spec (map department tu))). rewrite in_map_iff.
    destruct Hg as (_ & Hkeys & _). split.
    + intros ([k v] & Hd & Hin).
      assert (Hk : In k (map fst tu)) by (change k with (fst (k, v)); apply in_map, Hin).
      apply Hkeys in Hk. destruct Hk as (r & Hr & Hkey).
      apply select_In in Hr. destruct Hr as (Hr & m & x & Hm & Hx & Hle).
      exists r, k, m, x. split; [exact Hr |]. split.
      * rewrite (Hdep r k Hkey). unfold department in Hd. simpl in Hd.
        rewrite <- Hd. reflexivity.
      * repeat split; try assumption. unfold global_p10. rewrite H1, Hx. reflexivity.
    + intros (r & k & m & x & Hr & Hd & Hkey & Hm & Hx & Hle).
      unfold global_p10 in Hx. rewrite H1 in Hx. inversion Hx; subst thr.
      assert (Hk : In k (map fst tu)).
      { apply Hkeys. exists r. split; [| exact Hkey].
        apply select_In. split; [exact Hr |]. exists m, x. auto. }
      apply in_map_iff in Hk. destruct Hk as ([k' v] & Hfst & Hin). simpl in Hfst. subst k'.
      exists (k, v). split; [| exact Hin].
      pose proof (Hdep r k Hkey) as Hd'. rewrite Hd in Hd'. inversion Hd'.
      unfold department. reflexivity.
  - unfold departamentos_amaz, target_unique_amazonicos, t_min_stats_amazonicos, restrict.
    destruct (text_column t_min_stats); [| reflexivity].
    destruct (cohort_entries (filter (in_scope upper amazon_depts) t_min_stats))
      as (thr' & _ & H2' & _ & _).
    set (tu' := groupby_min
                  (select (filter (in_scope upper amazon_depts) t_min_stats) thr')) in *.
    exists (unique (map department tu')).
    split; [cbn [bind]; rewrite H2'; reflexivity |].
    split; [apply unique_spec |].
    intros d Hd. apply (proj2 (unique_spec (map department tu'))) in Hd.
    apply in_map_iff in Hd. destruct Hd as (e & <- & Hin).
    eapply cohort_of_scope. exact Hin.
Qed.

End AggregateFacts.

(* ================================================================== *)
(** ** Further properties of the name normalizer *)

Section NormalizerExtras.
Import Unicode NameColumn.

(** X12.  With the character tables of Unicode, a normalized text holds no
    nonspacing mark, every character of it is its own upper case and its
    own decomposition, and upper-casing it again changes nothing. *)
Theorem normalize_str_output (ucd : UCD) (s : str) :
  ucd_stable ucd ->
  (forall u, In u (normalize_str ucd s) ->
     is_Mn ucd u = false /\ to_upper ucd u = [u] /\ decomposition ucd u = [u]) /\
  upper ucd (normalize_str ucd s) = normalize_str ucd s.
Proof.
  intros [Hdec Hup].
  assert (Hchars : forall u, In u (normalize_str ucd s) ->
            is_Mn ucd u = false /\ to_upper ucd u = [u] /\ decomposition ucd u = [u]).
  { intros u Hu. apply normalize_str_chars in Hu.
    destruct Hu as (c & d & Hc & Hd & Hmn & Hu).
    destruct (Hup d u (Hdec c d Hd) Hmn Hu) as (H1 & H2 & H3 & _). auto. }
  split; [exact Hchars |].
  unfold upper at 1. apply flat_map_singletons. intros u Hu. apply Hchars, Hu.
Qed.

Lemma normalize_str_output_witness :
  ucd_stable ucd_excerpt /\
  (forall u, In u (normalize_str ucd_excerpt text_jose) ->
     is_Mn ucd_excerpt u = false /\ to_upper ucd_excerpt u = [u] /\
     decomposition ucd_excerpt u = [u]) /\
  upper ucd_excerpt (normalize_str ucd_excerpt text_jose) =
    normalize_str ucd_excerpt text_jose.
Proof.
  split; [exact ucd_excerpt_stable |].
  apply (@normalize_str_output ucd_excerpt text_jose). exact ucd_excerpt_stable.
Defined.

(** X13.  A text made of characters without decomposition that are
    starters and no nonspacing marks (ASCII text, for one) is only
    upper-cased. *)
Theorem normalize_str_plain (ucd : UCD) (s : str) :
  (forall c, In c s ->
     decomposition ucd c = [c] /\ is_Mn ucd c = false /\ combining ucd c = 0%N) ->
  normalize_str ucd s = upper ucd s.
Proof.
  intro H. unfold normalize_str, nfd.
  rewrite (flat_map_singletons (decomposition ucd) s) by (intros c Hc; apply H, Hc).
  rewrite canonical_order_starters by (intros c Hc; apply H, Hc).
  rewrite filter_all by (intros c Hc; apply negb_true_iff; apply H, Hc).
  reflexivity.
Qed.

Lemma normalize_str_plain_witness :
  (forall c, In c (of_ascii "Puno 1") ->
     decomposition ucd_excerpt c = [c] /\ is_Mn ucd_excerpt c = false /\
     combining ucd_excerpt c = 0%N) /\
  normalize_str ucd_excerpt (of_ascii "Puno 1") = upper ucd_excerpt (of_ascii "Puno 1") /\
  normalize_str ucd_excerpt (of_ascii "Puno 1") = of_ascii "PUNO 1".
Proof.
  assert (H : forall c, In c (of_ascii "Puno 1") ->
            decomposition ucd_excerpt c = [c] /\ is_Mn ucd_excerpt c = false /\
            combining ucd_excerpt c = 0%N).
  { intros c Hc. apply ucd_excerpt_low. simpl in Hc.
    repeat (destruct Hc as [<- | Hc]; [reflexivity |]). destruct Hc. }
  split; [exact H |]. split.
  - apply (@normalize_str_plain ucd_excerpt (of_ascii "Puno 1")). exact H.
  - rewrite (@normalize_str_plain ucd_excerpt (of_ascii "Puno 1") H). reflexivity.
Defined.

(** X14.  Normalizing the name column raises TypeError exactly when a name
    is missing; otherwise the new column has one name per row, the
    normalized name of that row. *)
Theorem apply_normalize_str_column (ucd : UCD) (col : list (option str)) :
  (apply_normalize_str ucd col = TypeError <-> In None col) /\
  forall names,
    apply_normalize_str ucd col = Column names ->
    length names = length col /\
    col = map Some (flat_map (fun o => match o with Some s => [s] | None => [] end) col) /\
    names = map (normalize_str ucd)
                (flat_map (fun o => match o with Some s => [s] | None => [] end) col).
Proof.
  induction col as [| [s |] col [IHe IHc]]; simpl.
  - split; [split; [discriminate | intros []] |].
    intros names H. inversion H. auto.
  - destruct (apply_normalize_str ucd col) as [names' |] eqn:E.
    + split.
      * split; [discriminate |]. intros [H | H]; [discriminate |].
        apply IHe in H. discriminate.
      * intros names H. inversion H; subst names. clear H.
        destruct (IHc names' eq_refl) as (Hl & Hc & Hn).
        simpl. split; [f_equal; exact Hl |]. split; f_equal; assumption.
    + split; [split; [intros _; right; apply IHe; reflexivity | reflexivity] |].
      intros names H. discriminate.
  - split; [split; [intros _; left; reflexivity | reflexivity] |].
    intros names H. discriminate.
Qed.

End NormalizerExtras.
